(** * The data grid of main.jsx

    A shallow embedding of the hook [useStateData] (the state of the grid, the
    load of the data, pinning and sorting of columns, the derived list of
    columns) and of the components [Cell], [HeaderCell] and [DataGrid], with
    the properties of the grid proved over it.

    Conventions of the embedding:
    - a string is a [string] of character codes; two strings compare
      lexicographically by code, as JavaScript's [<] does on code units;
    - a number is an integer of [Z]: a JSON integer literal is read exactly
      below 2^53, and finite numbers compare as their values do.  Fractions
      need binary floating point and are not part of the model;
    - a row is the list of the own properties of a plain data object, in the
      order in which [Object.keys] lists them; what a row inherits from
      [Object.prototype] is not part of it;
    - a click is handled to its end and the grid is rendered again before the
      next event: a handler sees, in its closure, the state it was rendered with
      and updates the current state, and at a click both are the same state. *)

From Stdlib Require Import List String Ascii ZArith Lia Bool.
From Stdlib Require Import Permutation Sorted DecimalString OrderedTypeEx.
Import ListNotations.

Local Open Scope string_scope.
Local Open Scope list_scope.

(** ** Values and the runtime *)

(** What [row[col]] can be.  The rows are flat objects that hold numbers and
    strings (the path of an image is a string); [row[col]] is [undefined]
    when the row has no such key. *)
Inductive value : Type :=
| VUndefined
| VNumber (n : Z)
| VString (s : string).

Definition strict_eq (a b : value) : bool :=
  match a, b with
  | VUndefined, VUndefined => true
  | VNumber m, VNumber n => (m =? n)%Z
  | VString s, VString t => (s =? t)%string
  | _, _ => false
  end.

(** What the grid takes from the JavaScript runtime and leaves abstract.
    [StringToNumber_compare s n]: the string [s] converted to a number and
    compared with [n]; [None] when the conversion gives NaN.
    [toLocaleString n]: [n] formatted in the locale of the host.
    [capitalize s]: lodash's [capitalize], the first character of [s] in
    upper case and the rest in lower case, by the case mapping of the
    runtime (which reaches beyond the letters a to z). *)
Class Runtime : Type := {
  StringToNumber_compare : string -> Z -> option comparison;
  toLocaleString : Z -> string;
  capitalize : string -> string
}.

(** JavaScript's [a < b]: two strings by code, otherwise as numbers, and
    false as soon as one side is NaN ([undefined] converts to NaN). *)
Definition js_lt `{Runtime} (a b : value) : bool :=
  match a, b with
  | VString s, VString t => String.ltb s t
  | VNumber m, VNumber n => (m <? n)%Z
  | VString s, VNumber n =>
      match StringToNumber_compare s n with Some Lt => true | _ => false end
  | VNumber n, VString s =>
      match StringToNumber_compare s n with Some Gt => true | _ => false end
  | _, _ => false
  end.

Definition js_gt `{Runtime} (a b : value) : bool := js_lt b a.

(** ** Strings *)

Definition lower (c : ascii) : ascii :=
  let n := nat_of_ascii c in
  if (65 <=? n)%nat && (n <=? 90)%nat then ascii_of_nat (n + 32) else c.

Definition upper (c : ascii) : ascii :=
  let n := nat_of_ascii c in
  if (97 <=? n)%nat && (n <=? 122)%nat then ascii_of_nat (n - 32) else c.

(** [s.toLowerCase()], on the letters A to Z.  The grid calls it for one
    thing, to see whether a string ends in ".png", and for that the other
    letters do not count: none of them folds to a dot, p, n or g. *)
Fixpoint toLowerCase (s : string) : string :=
  match s with
  | EmptyString => EmptyString
  | String c s' => String (lower c) (toLowerCase s')
  end.

(** [s.endsWith(suffix)]: some tail of [s] is [suffix]. *)
Fixpoint endsWith (s suffix : string) : bool :=
  (s =? suffix)%string ||
  match s with
  | EmptyString => false
  | String _ s' => endsWith s' suffix
  end.

Definition startsWith (s start : string) : bool := String.prefix start s.

(** [capitalize] for a runtime of the examples: the letters a to z and A to
    Z are mapped, every other character is left as it is. *)
Definition capitalize_ascii (s : string) : string :=
  match toLowerCase s with
  | EmptyString => EmptyString
  | String c s' => String (upper c) s'
  end.

(** ** Arrays of column names *)

Fixpoint includes (x : string) (l : list string) : bool :=
  match l with
  | [] => false
  | y :: l' => (y =? x)%string || includes x l'
  end.

(** lodash's [uniq]: every element is kept at its first occurrence.  [seen]
    holds what has been kept so far. *)
Fixpoint uniq_from (seen l : list string) : list string :=
  match l with
  | [] => []
  | x :: l' =>
      if includes x seen then uniq_from seen l'
      else x :: uniq_from (x :: seen) l'
  end.

Definition uniq (l : list string) : list string := uniq_from [] l.

(** lodash's [flatten], one level deep. *)
Definition flatten (ll : list (list string)) : list string := List.concat ll.

(** The index of the first occurrence of [x] in [l], and the length of [l]
    when there is none. *)
Fixpoint first_index (x : string) (l : list string) : nat :=
  match l with
  | [] => 0
  | y :: l' => if (y =? x)%string then 0 else S (first_index x l')
  end.

(** [x] occurs in [l], and first does so before [y] does (if [y] does). *)
Definition before (x y : string) (l : list string) : Prop :=
  (first_index x l < first_index y l)%nat.

(** ** Rows *)

Definition Row : Type := list (string * value).

Definition Object_keys (row : Row) : list string := map fst row.

(** [row[key]]: the own property of the row, and [undefined] when the row
    has no such key.  (For the few names that every object inherits, such as
    "constructor", JavaScript finds a function of [Object.prototype] where
    the row has no key of its own; [plain_name] below rules these names
    out where the difference counts, which is in sorting.) *)
Fixpoint prop (row : Row) (key : string) : value :=
  match row with
  | [] => VUndefined
  | (k, v) :: row' => if (k =? key)%string then v else prop row' key
  end.

(** ** Sorting (lodash) *)

(** The names that every object inherits from [Object.prototype]. *)
Definition Object_prototype_names : list string :=
  [ "constructor"; "__defineGetter__"; "__defineSetter__"; "hasOwnProperty";
    "__lookupGetter__"; "__lookupSetter__"; "isPrototypeOf";
    "propertyIsEnumerable"; "toString"; "valueOf"; "__proto__";
    "toLocaleString" ].

(** A dot or an opening bracket in a name: lodash may take the name for a
    path. *)
Fixpoint has_path_syntax (col : string) : bool :=
  match col with
  | EmptyString => false
  | String c col' =>
      (c =? ".")%char || (c =? "[")%char || has_path_syntax col'
  end.

Definition plain_name (col : string) : bool :=
  negb (has_path_syntax col) && negb (includes col Object_prototype_names).

(** The iteratee of [sortBy(data, [col])] is lodash's [_.property(col)].
    On a row that has [col] as a key of its own it reads that property,
    whatever the name is.  On a row that has not, it gives [undefined] for a
    plain name; but a name with a dot or a bracket is followed as a path
    (for "state.length", the length of [row.state]), and an inherited name is
    read from [Object.prototype].  [reads_own col rows]: on all the rows the
    iteratee reads the own property, as [prop] does. *)
Definition reads_own (col : string) (rows : list Row) : bool :=
  forallb (fun row => includes col (Object_keys row) || plain_name col) rows.

(** lodash's [compareAscending], on the values a row can hold: [undefined]
    sorts after everything else. *)
Definition compareAscending `{Runtime} (value other : value) : Z :=
  if negb (strict_eq value other) then
    let valIsDefined := negb (strict_eq value VUndefined) in
    let othIsDefined := negb (strict_eq other VUndefined) in
    if js_gt value other || negb valIsDefined then 1%Z
    else if js_lt value other || negb othIsDefined then (-1)%Z
    else 0%Z
  else 0%Z.

(** [x] goes before the first row that is not below it: rows of the same
    criterion keep the order they came in.  The criterion of a row is
    [prop row col]; it is what lodash ranks the row on when
    [reads_own col] holds of the rows. *)
Fixpoint insert_by `{Runtime} (col : string) (x : Row) (sorted : list Row)
  : list Row :=
  match sorted with
  | [] => [x]
  | y :: rest =>
      if (compareAscending (prop x col) (prop y col) >? 0)%Z
      then y :: insert_by col x rest
      else x :: sorted
  end.

(** lodash's [sortBy(collection, [col])]: a new array, the rows in ascending
    order of [row[col]] under [compareAscending], the sort being stable.
    lodash breaks the ties of the comparer on the index in the collection;
    here the rows are inserted from the last to the first.

    The model stands for the code on the columns that the statements about
    the order of the rows are made for: [reads_own col] holds of the rows,
    and their values are [comparable], so that the comparer orders them and
    every sort ends in the one stable order.  On a column that mixes
    numbers and strings the comparer is not transitive, and the order then
    depends on the sort of the engine; nothing is stated of it there but
    for [mixed_states], whose rows are in order pair by pair for the
    comparer: a sort that looks for runs first, as V8's does, leaves them as
    they are, and in whatever order they come out they are not in ascending
    order. *)
Definition sortBy `{Runtime} (collection : list Row) (col : string)
  : list Row :=
  fold_right (insert_by col) [] collection.

(** lodash's [reverse]; at its one call it reverses the fresh array that
    [sortBy] returned. *)
Definition reverse (array : list Row) : list Row := rev array.

(** ** The state of the hook *)

Inductive Direction : Type := ASC | DEC.

Record SortedOn : Type := mkSortedOn {
  direction : Direction;
  column : string
}.

Record State : Type := mkState {
  data : list Row;
  loading : bool;
  error : option string;
  sortedOn : SortedOn;
  pinnedColumns : list string
}.

(** The five [useState] calls. *)
Definition initialState : State :=
  {| data := [];
     loading := false;
     error := None;
     sortedOn := {| direction := ASC; column := "state" |};
     pinnedColumns := [] |}.

Definition setData (v : list Row) (st : State) : State :=
  mkState v (loading st) (error st) (sortedOn st) (pinnedColumns st).

Definition setLoading (v : bool) (st : State) : State :=
  mkState (data st) v (error st) (sortedOn st) (pinnedColumns st).

Definition setError (v : string) (st : State) : State :=
  mkState (data st) (loading st) (Some v) (sortedOn st) (pinnedColumns st).

Definition setSortedOn (v : SortedOn) (st : State) : State :=
  mkState (data st) (loading st) (error st) v (pinnedColumns st).

(** [setPinnedColumns] is called with an updater of the current value. *)
Definition setPinnedColumns (f : list string -> list string) (st : State)
  : State :=
  mkState (data st) (loading st) (error st) (sortedOn st)
          (f (pinnedColumns st)).

(** ** Pinning and sorting *)

(** [render] is the state the callback was made with, [st] the state that
    the setters update. *)
Definition handlePinning (render : State) (col : string) (st : State)
  : State :=
  if includes col (pinnedColumns render) then
    setPinnedColumns
      (fun currentPinned =>
         filter (fun c => negb (c =? col)%string) currentPinned) st
  else
    setPinnedColumns (fun currentPinned => currentPinned ++ [col]) st.

Definition handleSort `{Runtime} (render : State) (col : string) (st : State)
  : State :=
  if (column (sortedOn render) =? col)%string then
    match direction (sortedOn render) with
    | ASC =>
        setData (reverse (sortBy (data render) col))
          (setSortedOn
             {| direction := DEC; column := column (sortedOn render) |} st)
    | DEC =>
        setData (sortBy (data render) "state")
          (setSortedOn {| direction := ASC; column := "state" |} st)
    end
  else
    setData (sortBy (data render) col)
      (setSortedOn {| direction := ASC; column := col |} st).

(** The two operations, at an event: the callback of the last render runs on
    the state of that render. *)
Definition TogglePin (col : string) (st : State) : State :=
  handlePinning st col st.

Definition Sort `{Runtime} (col : string) (st : State) : State :=
  handleSort st col st.

(** ** The derived columns *)

Definition initialColumns (data : list Row) : list string :=
  uniq
    (flatten
       (map (fun row =>
               filter (fun key => negb (startsWith key "_")) (Object_keys row))
            data)).

Definition newColumns (pinnedColumns initialColumns : list string)
  : list string :=
  uniq (pinnedColumns ++ initialColumns).

(** The [columns] that the hook returns. *)
Definition columns (st : State) : list string :=
  newColumns (pinnedColumns st) (initialColumns (data st)).

(** ** The load of the data *)

Definition STATE_DATA_URL : string :=
  "https://assets.codepen.io/5781725/states-data.json".

Record Error : Type := { message : string }.

(** How an awaited promise settles. *)
Inductive Settled (A : Type) : Type :=
| Resolved (a : A)
| Rejected (err : Error).
Arguments Resolved {A} a.
Arguments Rejected {A} err.

(** A response, for what the grid does with it: how [res.json()] settles. *)
Record Response : Type := { json : Settled (list Row) }.

(** The network: how the [fetch] of a url settles. *)
Definition Network : Type := string -> Settled Response.

(** What the hook does to the world, and the points at which it waits: the
    state at an [await] is the one the grid shows while the promise is
    pending. *)
Inductive Effect : Type :=
| Fetch (url : string)
| Await (shown : State)
| ConsoleError (label detail : string).

(** A computation of the hook: it runs on the state, ends with a value or
    with a thrown error, and leaves a state and the effects it had. *)
Definition M (A : Type) : Type := State -> (Error + A) * State * list Effect.

Definition ret {A : Type} (a : A) : M A := fun st => (inr a, st, []).

Definition bind {A B : Type} (m : M A) (k : A -> M B) : M B :=
  fun st =>
    match m st with
    | (inl err, st1, out1) => (inl err, st1, out1)
    | (inr a, st1, out1) =>
        match k a st1 with
        | (r, st2, out2) => (r, st2, out1 ++ out2)
        end
    end.

(** [try { body } catch (err) { handler }]: what [body] did to the state
    before it threw stays done. *)
Definition try_catch {A : Type} (body : M A) (handler : Error -> M A) : M A :=
  fun st =>
    match body st with
    | (inl err, st1, out1) =>
        match handler err st1 with
        | (r, st2, out2) => (r, st2, out1 ++ out2)
        end
    | done => done
    end.

Definition set (f : State -> State) : M unit := fun st => (inr tt, f st, []).

Definition emit (e : Effect) : M unit := fun st => (inr tt, st, [e]).

(** [await p]: the value of the promise, or its error thrown. *)
Definition await {A : Type} (p : Settled A) : M A :=
  fun st =>
    (match p with Resolved a => inr a | Rejected err => inl err end,
     st, [Await st]).

Definition fetch (net : Network) (url : string) : M (Settled Response) :=
  bind (emit (Fetch url)) (fun _ => ret (net url)).

Declare Scope hook_scope.
Delimit Scope hook_scope with hook.
Notation "x <- m ;; k" := (bind m (fun x => k))
  (at level 61, m at next level, right associativity) : hook_scope.
Notation "m ;; k" := (bind m (fun _ => k))
  (at level 61, right associativity) : hook_scope.

Definition getStatesData (net : Network) : M unit :=
  (try_catch
     (set (setLoading true) ;;
      pending <- fetch net STATE_DATA_URL ;;
      res <- await pending ;;
      statesData <- await (json res) ;;
      set (setLoading false) ;;
      set (setData statesData))
     (fun err =>
        set (setLoading false) ;;
        set (setError "Error fetching states") ;;
        emit (ConsoleError "Error fetching states" (message err))))%hook.

Definition state_after {A : Type} (m : M A) (st : State) : State :=
  snd (fst (m st)).

Definition effects_of {A : Type} (m : M A) (st : State) : list Effect :=
  snd (m st).

(** The requests among the effects. *)
Definition fetches (out : list Effect) : list string :=
  flat_map (fun e => match e with Fetch url => [url] | _ => [] end) out.

(** The states shown while a promise was pending. *)
Definition shown_pending (out : list Effect) : list State :=
  flat_map (fun e => match e with Await st => [st] | _ => [] end) out.

(** ** The components *)

(** What stands between the tags of a cell: an image, or a value that React
    renders as text. *)
Inductive Child : Type :=
| Img (src : string)
| Text (v : value).

Record Td : Type := { td_className : string; td_child : Child }.

(** A header cell; [th_onClick] is the column that its click handler is
    bound to. *)
Record Th : Type := {
  th_className : string;
  th_title : string;
  th_onClick : string
}.

Inductive View : Type :=
| Div (text : string)
| Table (thead : list Th) (tbody : list (list Td)).

Definition Cell `{Runtime} (datum : value) (pinned : bool) : Td :=
  {| td_className := if pinned then "pinned" else "";
     td_child :=
       match datum with
       | VString s =>
           if endsWith (toLowerCase s) ".png" then Img s else Text datum
       | VNumber n => Text (VString (toLocaleString n))
       | VUndefined => Text datum
       end |}.

Definition HeaderCell `{Runtime} (title : string) (pinned : bool) : Th :=
  {| th_className := if pinned then "pinned" else "";
     th_title := capitalize title;
     th_onClick := title |}.

(** The text React puts in the document for a child: a string as it is, a
    number in decimal, nothing for [undefined], and no text for an image. *)
Definition textContent (c : Child) : string :=
  match c with
  | Img _ => ""
  | Text (VString s) => s
  | Text (VNumber n) => NilZero.string_of_int (Z.to_int n)
  | Text VUndefined => ""
  end.

(** [if (error)]: neither [null] nor the empty string. *)
Definition truthy (error : option string) : bool :=
  match error with
  | Some (String _ _) => true
  | _ => false
  end.

Definition DataGrid `{Runtime} (st : State) : View :=
  if loading st then Div "Loading..."
  else if truthy (error st) then
    Div (match error st with Some msg => msg | None => "" end)
  else
    Table
      (map (fun col => HeaderCell col (includes col (pinnedColumns st)))
           (columns st))
      (map (fun row =>
              map (fun col =>
                     Cell (prop row col) (includes col (pinnedColumns st)))
                  (columns st))
           (data st)).

(** The click on the header of [col]: with the meta key the column is
    pinned or unpinned, without it the grid is sorted. *)
Definition onClick `{Runtime} (render : State) (col : string) (metaKey : bool)
  : State -> State :=
  if metaKey then handlePinning render col else handleSort render col.

(** The columns whose header can be clicked in a view. *)
Definition headers (v : View) : list string :=
  match v with
  | Div _ => []
  | Table thead _ => map th_onClick thead
  end.

(** The states the grid goes through: the state of the first render, the
    states shown during the one load that the effect starts after it, the
    state the load ends in, and from there a click on a header at a time. *)
Inductive reachable `{Runtime} (net : Network) : State -> Prop :=
| reach_initial : reachable net initialState
| reach_pending st :
    In st (shown_pending (effects_of (getStatesData net) initialState)) ->
    reachable net st
| reach_loaded :
    reachable net (state_after (getStatesData net) initialState)
| reach_click st col metaKey :
    reachable net st ->
    In col (headers (DataGrid st)) ->
    reachable net (onClick st col metaKey st).

(** The states after the load: the state the load ends in, and from there
    a click on a header at a time. *)
Inductive after_load `{Runtime} (net : Network) : State -> Prop :=
| loaded_now :
    after_load net (state_after (getStatesData net) initialState)
| loaded_click st col metaKey :
    after_load net st ->
    In col (headers (DataGrid st)) ->
    after_load net (onClick st col metaKey st).

(** ** A runtime for the examples *)

Definition is_digit (c : ascii) : bool :=
  let n := nat_of_ascii c in (48 <=? n)%nat && (n <=? 57)%nat.

Fixpoint digits_value (s : string) (acc : Z) : option Z :=
  match s with
  | EmptyString => Some acc
  | String c s' =>
      if is_digit c
      then digits_value s' (10 * acc + Z.of_nat (nat_of_ascii c - 48))%Z
      else None
  end.

(** The integer a string spells in decimal, with a sign or without; the empty
    string converts to 0.  White space, fractions, exponents and radix
    prefixes, which JavaScript reads as well, are left out: the examples have
    no such string. *)
Definition StringToNumber_int (s : string) : option Z :=
  match s with
  | String "-" (String _ _ as s') => option_map Z.opp (digits_value s' 0)
  | String "+" (String _ _ as s') => digits_value s' 0
  | _ => digits_value s 0
  end.

(** The digits are taken from the last one; [k] of them stand since the
    last comma. *)
Fixpoint group_digits (k : nat) (reversed : list ascii) : list ascii :=
  match reversed with
  | [] => []
  | d :: rest =>
      match k with
      | 3%nat => ","%char :: d :: group_digits 1 rest
      | _ => d :: group_digits (S k) rest
      end
  end.

(** [n.toLocaleString()] in the locale en-US, for an integer: groups of
    three digits with commas between them. *)
Definition toLocaleString_en_US (n : Z) : string :=
  let ds := list_ascii_of_string (NilZero.string_of_uint (N.to_uint (Z.abs_N n))) in
  let grouped := string_of_list_ascii (rev (group_digits 0 (rev ds))) in
  if (n <? 0)%Z then String "-" grouped else grouped.

#[export] Instance en_US : Runtime := {
  StringToNumber_compare s n :=
    option_map (fun v => Z.compare v n) (StringToNumber_int s);
  toLocaleString := toLocaleString_en_US;
  capitalize := capitalize_ascii
}.

(** ** Notions for the statements *)

(** The keys of the rows, row after row. *)
Definition all_keys (data : list Row) : list string :=
  flatten (map Object_keys data).

Definition visible (key : string) : bool := negb (startsWith key "_").

(** The order of the values of a column: numbers by their value, strings
    by their codes, a missing value after the others.  A number and a string
    are not ordered. *)
Definition value_le (a b : value) : Prop :=
  match a, b with
  | VNumber m, VNumber n => (m <= n)%Z
  | VString s, VString t => String.leb s t = true
  | _, VUndefined => True
  | _, _ => False
  end.

(** The two kinds of column whose values compare with one another: numbers
    ([true]) and strings ([false]), with rows that lack the key. *)
Definition of_kind (numeric : bool) (v : value) : bool :=
  match v with
  | VUndefined => true
  | VNumber _ => numeric
  | VString _ => negb numeric
  end.

Definition comparable (col : string) (rows : list Row) : bool :=
  forallb (fun row => of_kind true (prop row col)) rows
  || forallb (fun row => of_kind false (prop row col)) rows.

Definition ascending_by (col : string) (rows : list Row) : Prop :=
  StronglySorted (fun r1 r2 => value_le (prop r1 col) (prop r2 col)) rows.

(** The rows whose value in [col] is [v]. *)
Definition has (col : string) (v : value) (row : Row) : bool :=
  strict_eq (prop row col) v.

(** The rows whose value in [col] is of the kind [k]. *)
Definition in_kind (col : string) (k : bool) (row : Row) : Prop :=
  of_kind k (prop row col) = true.

(** The load fails: the request is rejected, or the body of the response
    is not read as JSON. *)
Definition load_fails (net : Network) : Prop :=
  (exists err, net STATE_DATA_URL = Rejected err)
  \/ (exists res err,
        net STATE_DATA_URL = Resolved res /\ json res = Rejected err).

Definition failed : State :=
  setError "Error fetching states" (setLoading false (setLoading true initialState)).

(** ** Data for the examples *)

Definition Texas : Row := [("state", VString "Texas"); ("pop", VNumber 29000000)].

Definition Ohio : Row := [("state", VString "Ohio"); ("pop", VNumber 11800000)].

Definition two_states : list Row :=
  [ [("state", VString "Texas"); ("_id", VNumber 1); ("pop", VNumber 29000000)];
    [("state", VString "Ohio"); ("capital", VString "Columbus");
     ("pop", VNumber 11800000)] ].

Definition mixed_states : list Row :=
  [ [("state", VNumber 7); ("pop", VNumber 3)];
    [("state", VString "abc"); ("pop", VNumber 2)];
    [("state", VNumber 5); ("pop", VNumber 1)] ].

Definition underscore_row : list Row :=
  [[("_id", VNumber 7); ("state", VString "Texas")]].

Definition loaded_Texas_Ohio : State := setData [Texas; Ohio] initialState.

Definition loaded_mixed : State := setData mixed_states initialState.

Definition pinned_pop_capital : State :=
  TogglePin "capital" (TogglePin "pop" initialState).

Definition two_states_network : Network :=
  fun _ => Resolved {| json := Resolved two_states |}.

(** The two states loaded, and "pop" pinned by a click with the meta key. *)
Definition two_states_pop_pinned : State :=
  onClick (state_after (getStatesData two_states_network) initialState)
          "pop" true
          (state_after (getStatesData two_states_network) initialState).

Definition failing_network : Network :=
  fun _ => Rejected {| message := "Failed to fetch" |}.

(** ** Further notions and data *)

Definition descending_by (col : string) (rows : list Row) : Prop :=
  StronglySorted (fun r1 r2 => value_le (prop r2 col) (prop r1 col)) rows.

(** The load succeeds with [statesData]. *)
Definition resolves (net : Network) (statesData : list Row) : Prop :=
  exists res,
    net STATE_DATA_URL = Resolved res /\ json res = Resolved statesData.

(** What was written to the console. *)
Definition console_errors (out : list Effect) : list (string * string) :=
  flat_map (fun e => match e with
                     | ConsoleError label detail => [(label, detail)]
                     | _ => []
                     end) out.

Definition two_states_loaded : State :=
  state_after (getStatesData two_states_network) initialState.

Definition Texas_Ohio_network : Network :=
  fun _ => Resolved {| json := Resolved [Texas; Ohio] |}.

Definition bad_json_network : Network :=
  fun _ => Resolved {| json := Rejected {| message := "Unexpected token" |} |}.

(** The two states sorted on "pop" by a first click. *)
Definition Texas_Ohio_by_pop : State := Sort "pop" loaded_Texas_Ohio.

(** The headers and the rows of the table shown with "pop" pinned. *)
Definition pop_pinned_thead : list Th :=
  match DataGrid two_states_pop_pinned with
  | Table thead _ => thead
  | Div _ => []
  end.

Definition pop_pinned_tbody : list (list Td) :=
  match DataGrid two_states_pop_pinned with
  | Table _ tbody => tbody
  | Div _ => []
  end.

(** * Properties *)

(** ** Arrays of column names *)

Lemma includes_In (x : string) (l : list string) :
  includes x l = true <-> In x l.
Proof.
  induction l as [|y l IH]; simpl.
  - split; [discriminate | contradiction].
  - rewrite orb_true_iff, IH, String.eqb_eq. tauto.
Qed.

Lemma includes_not_In (x : string) (l : list string) :
  includes x l = false <-> ~ In x l.
Proof.
  rewrite <- includes_In. destruct (includes x l); split; congruence.
Qed.

Lemma includes_app (x : string) (l1 l2 : list string) :
  includes x (l1 ++ l2) = includes x l1 || includes x l2.
Proof.
  induction l1 as [|y l1 IH]; simpl; [reflexivity|].
  now rewrite IH, orb_assoc.
Qed.

(** [uniq_from] looks at [seen] only through [includes]. *)
Lemma uniq_from_ext (l s1 s2 : list string) :
  (forall x, includes x s1 = includes x s2) ->
  uniq_from s1 l = uniq_from s2 l.
Proof.
  revert s1 s2. induction l as [|x l IH]; intros s1 s2 E; simpl; [reflexivity|].
  rewrite <- (E x). destruct (includes x s1).
  - now apply IH.
  - f_equal. apply IH. intros y. simpl. now rewrite E.
Qed.

Lemma uniq_from_In (x : string) (l seen : list string) :
  In x (uniq_from seen l) <-> In x l /\ ~ In x seen.
Proof.
  revert seen. induction l as [|y l IH]; intros seen; simpl; [tauto|].
  destruct (includes y seen) eqn:E.
  - apply includes_In in E. rewrite IH.
    split; [tauto|]. intros [[->|H] N]; tauto.
  - apply includes_not_In in E. simpl. rewrite IH. simpl.
    destruct (string_dec y x) as [->|N]; [tauto|]. tauto.
Qed.

Lemma uniq_from_NoDup (l seen : list string) : NoDup (uniq_from seen l).
Proof.
  revert seen. induction l as [|y l IH]; intros seen; simpl; [constructor|].
  destruct (includes y seen); [apply IH|].
  constructor; [|apply IH].
  rewrite uniq_from_In. simpl. tauto.
Qed.

Lemma uniq_from_filter (l seen extra : list string) :
  uniq_from (extra ++ seen) l =
  filter (fun x => negb (includes x extra)) (uniq_from seen l).
Proof.
  revert seen. induction l as [|x l IH]; intros seen; simpl; [reflexivity|].
  rewrite includes_app.
  destruct (includes x seen) eqn:Es.
  - rewrite orb_true_r. apply IH.
  - rewrite orb_false_r. simpl. destruct (includes x extra) eqn:Ee; simpl.
    + rewrite <- IH. apply uniq_from_ext. intros y.
      rewrite !includes_app. simpl.
      destruct (String.eqb_spec x y) as [->|]; [|reflexivity].
      now rewrite Ee.
    + f_equal. rewrite <- IH. apply uniq_from_ext. intros y.
      simpl. rewrite !includes_app. simpl.
      destruct (x =? y)%string, (includes y extra); reflexivity.
Qed.

Lemma uniq_from_app (l1 l2 seen : list string) :
  uniq_from seen (l1 ++ l2) =
  uniq_from seen l1 ++ uniq_from (l1 ++ seen) l2.
Proof.
  revert seen. induction l1 as [|x l1 IH]; intros seen; simpl; [reflexivity|].
  destruct (includes x seen) eqn:Es.
  - rewrite IH. f_equal. apply uniq_from_ext. intros y.
    simpl. rewrite !includes_app.
    destruct (String.eqb_spec x y) as [->|]; [|reflexivity].
    now rewrite Es, orb_true_r.
  - simpl. f_equal. rewrite IH. f_equal. apply uniq_from_ext. intros y.
    simpl. rewrite !includes_app. simpl.
    destruct (x =? y)%string, (includes y l1); reflexivity.
Qed.

Lemma uniq_cons (x : string) (l : list string) :
  uniq (x :: l) = x :: filter (fun y => negb (x =? y)%string) (uniq l).
Proof.
  unfold uniq. simpl. f_equal.
  pose proof (uniq_from_filter l [] [x]) as E. simpl in E. rewrite E.
  apply filter_ext. intros y. now rewrite orb_false_r.
Qed.

Lemma uniq_In (x : string) (l : list string) : In x (uniq l) <-> In x l.
Proof. unfold uniq. rewrite uniq_from_In. simpl. tauto. Qed.

Lemma uniq_NoDup (l : list string) : NoDup (uniq l).
Proof. apply uniq_from_NoDup. Qed.

Lemma filter_id {A : Type} (f : A -> bool) (l : list A) :
  (forall x, In x l -> f x = true) -> filter f l = l.
Proof.
  induction l as [|y l IH]; simpl; intros E; [reflexivity|].
  rewrite (E y) by now left. f_equal. apply IH. intros; apply E; now right.
Qed.

Lemma uniq_of_NoDup (l : list string) : NoDup l -> uniq l = l.
Proof.
  induction 1 as [|x l N _ IH]; [reflexivity|].
  rewrite uniq_cons, IH. f_equal. apply filter_id.
  intros y Hy. destruct (String.eqb_spec x y) as [->|]; [contradiction|reflexivity].
Qed.

(** ** First occurrences *)

Lemma first_index_le (x : string) (l : list string) :
  (first_index x l <= List.length l)%nat.
Proof.
  induction l as [|y l IH]; simpl; [lia|]. destruct (y =? x)%string; lia.
Qed.

Lemma first_index_In (x : string) (l : list string) :
  In x l <-> (first_index x l < List.length l)%nat.
Proof.
  induction l as [|y l IH]; simpl; [split; [contradiction|lia]|].
  destruct (String.eqb_spec y x) as [->|N].
  - split; [lia|auto].
  - rewrite <- Nat.succ_lt_mono, <- IH. tauto.
Qed.

Lemma first_index_app (x : string) (l1 l2 : list string) :
  first_index x (l1 ++ l2) =
  if includes x l1 then first_index x l1
  else (List.length l1 + first_index x l2)%nat.
Proof.
  induction l1 as [|y l1 IH]; simpl; [reflexivity|].
  destruct (y =? x)%string; simpl; [reflexivity|].
  rewrite IH. now destruct (includes x l1).
Qed.

Lemma before_In (x y : string) (l : list string) : before x y l -> In x l.
Proof.
  unfold before. intros H. apply first_index_In.
  pose proof (first_index_le y l). lia.
Qed.

(** A filter keeps the order of what it keeps. *)
Lemma before_filter (f : string -> bool) (x y : string) (l : list string) :
  f x = true -> f y = true ->
  (before x y (filter f l) <-> before x y l).
Proof.
  intros Fx Fy. unfold before.
  induction l as [|b l IH]; simpl; [tauto|].
  destruct (f b) eqn:Fb; simpl.
  - destruct (b =? x)%string, (b =? y)%string; try lia.
  - destruct (String.eqb_spec b x) as [->|]; [congruence|].
    destruct (String.eqb_spec b y) as [->|]; [congruence|]. lia.
Qed.

(** [uniq] keeps the order of the first occurrences. *)
Lemma before_uniq (x y : string) (l : list string) :
  before x y (uniq l) <-> before x y l.
Proof.
  induction l as [|a l IH]; [unfold before; simpl; tauto|].
  rewrite uniq_cons.
  destruct (string_dec a x) as [Ex|Nx], (string_dec a y) as [Ey|Ny].
  - subst. unfold before. simpl. rewrite !String.eqb_refl. lia.
  - subst. unfold before. simpl. rewrite String.eqb_refl.
    destruct (String.eqb_spec x y); [contradiction|]. lia.
  - subst. unfold before. simpl. rewrite String.eqb_refl.
    destruct (String.eqb_spec y x); [congruence|]. lia.
  - assert (B : before x y (filter (fun z => negb (a =? z)%string) (uniq l))
                <-> before x y l).
    { rewrite before_filter; [exact IH| |].
      - destruct (String.eqb_spec a x); [contradiction|reflexivity].
      - destruct (String.eqb_spec a y); [contradiction|reflexivity]. }
    unfold before in *. simpl.
    destruct (String.eqb_spec a x); [contradiction|].
    destruct (String.eqb_spec a y); [contradiction|]. lia.
Qed.

(** ** Pinning *)

Lemma filter_other_app (col : string) (l1 l2 : list string) :
  ~ In col l1 -> ~ In col l2 ->
  filter (fun c => negb (c =? col)%string) (l1 ++ col :: l2) = l1 ++ l2.
Proof.
  intros N1 N2. rewrite filter_app. simpl. rewrite String.eqb_refl. simpl.
  rewrite !filter_id; [reflexivity| |];
    intros x Hx; destruct (String.eqb_spec x col) as [->|]; tauto.
Qed.

Lemma TogglePin_pinned (col : string) (st : State) :
  In col (pinnedColumns st) ->
  pinnedColumns (TogglePin col st) =
  filter (fun c => negb (c =? col)%string) (pinnedColumns st).
Proof.
  intros I. apply includes_In in I. unfold TogglePin, handlePinning.
  now rewrite I.
Qed.

Lemma TogglePin_unpinned (col : string) (st : State) :
  ~ In col (pinnedColumns st) ->
  pinnedColumns (TogglePin col st) = pinnedColumns st ++ [col].
Proof.
  intros I. apply includes_not_In in I. unfold TogglePin, handlePinning.
  now rewrite I.
Qed.

(** A column is pinned at most once, whatever is toggled. *)
Lemma TogglePin_NoDup (col : string) (st : State) :
  NoDup (pinnedColumns st) -> NoDup (pinnedColumns (TogglePin col st)).
Proof.
  intros N. destruct (in_dec string_dec col (pinnedColumns st)) as [I|I].
  - rewrite TogglePin_pinned by assumption. now apply NoDup_filter.
  - rewrite TogglePin_unpinned by assumption.
    apply NoDup_app; [assumption|repeat constructor; simpl; tauto|].
    intros a Ha [<-|[]]. contradiction.
Qed.

(** C4: a pinned column is taken out of PinnedColumns and the other entries
    keep their order; a column that is not pinned is added at the end.
    From no pinned column, pinning "pop" and then "capital" gives
    ["pop"; "capital"], and toggling "pop" again leaves ["capital"]. *)
Theorem TogglePin_removes_or_appends (col : string) (st : State) :
  (forall l1 l2,
      pinnedColumns st = l1 ++ col :: l2 -> ~ In col l1 -> ~ In col l2 ->
      pinnedColumns (TogglePin col st) = l1 ++ l2)
  /\ (~ In col (pinnedColumns st) ->
      pinnedColumns (TogglePin col st) = pinnedColumns st ++ [col])
  /\ (pinnedColumns st = [] ->
      pinnedColumns (TogglePin "capital" (TogglePin "pop" st))
        = ["pop"; "capital"]
      /\ pinnedColumns
           (TogglePin "pop" (TogglePin "capital" (TogglePin "pop" st)))
        = ["capital"]).
Proof.
  split; [|split].
  - intros l1 l2 E N1 N2. rewrite TogglePin_pinned.
    + rewrite E. now apply filter_other_app.
    + rewrite E. apply in_elt.
  - apply TogglePin_unpinned.
  - intros E.
    assert (P1 : pinnedColumns (TogglePin "pop" st) = ["pop"]).
    { rewrite TogglePin_unpinned; rewrite E; simpl; tauto. }
    assert (P2 : pinnedColumns (TogglePin "capital" (TogglePin "pop" st))
                 = ["pop"; "capital"]).
    { rewrite TogglePin_unpinned; rewrite P1; [reflexivity|].
      simpl. intros [F|[]]. discriminate F. }
    split; [exact P2|].
    rewrite TogglePin_pinned; rewrite P2; [reflexivity|now left].
Qed.

Lemma TogglePin_removes_or_appends_witness :
  pinnedColumns (TogglePin "pop" pinned_pop_capital) = ["capital"]
  /\ pinnedColumns (TogglePin "flag" pinned_pop_capital)
     = ["pop"; "capital"; "flag"]
  /\ pinnedColumns pinned_pop_capital = ["pop"; "capital"].
Proof.
  split; [|split].
  - apply (proj1 (TogglePin_removes_or_appends "pop" pinned_pop_capital)
             [] ["capital"]).
    + reflexivity.
    + simpl. tauto.
    + simpl. intros [E|[]]. discriminate E.
  - apply (proj1 (proj2 (TogglePin_removes_or_appends "flag" pinned_pop_capital))).
    simpl. intros [E|[E|[]]]; discriminate E.
  - apply (proj2 (proj2 (TogglePin_removes_or_appends "x" initialState))).
    reflexivity.
Defined.

(** C2, as it is stated, fails: with "pop" and "capital" pinned in this
    order, toggling "pop" twice leaves ["capital"; "pop"]. *)
Lemma TogglePin_twice_counterexample :
  pinnedColumns pinned_pop_capital = ["pop"; "capital"]
  /\ pinnedColumns (TogglePin "pop" (TogglePin "pop" pinned_pop_capital))
     = ["capital"; "pop"]
  /\ pinnedColumns (TogglePin "pop" (TogglePin "pop" pinned_pop_capital))
     <> pinnedColumns pinned_pop_capital.
Proof.
  split; [reflexivity|]. split; [reflexivity|]. discriminate.
Qed.

(** C2, amended: toggling a column twice gives PinnedColumns its content
    back.  The order comes back too when the column was not pinned; a column
    that was pinned ends up last, behind the other entries in their order. *)
Theorem TogglePin_twice (col : string) (st : State) :
  (~ In col (pinnedColumns st) ->
   pinnedColumns (TogglePin col (TogglePin col st)) = pinnedColumns st)
  /\ (forall l1 l2,
        pinnedColumns st = l1 ++ col :: l2 -> ~ In col l1 -> ~ In col l2 ->
        pinnedColumns (TogglePin col (TogglePin col st)) = l1 ++ l2 ++ [col])
  /\ (forall x,
        In x (pinnedColumns (TogglePin col (TogglePin col st)))
        <-> In x (pinnedColumns st)).
Proof.
  assert (A : ~ In col (pinnedColumns st) ->
              pinnedColumns (TogglePin col (TogglePin col st))
              = pinnedColumns st).
  { intros N. rewrite TogglePin_pinned.
    - rewrite TogglePin_unpinned by assumption.
      rewrite filter_app. simpl. rewrite String.eqb_refl. simpl.
      rewrite app_nil_r. apply filter_id.
      intros x Hx. destruct (String.eqb_spec x col) as [->|]; tauto.
    - rewrite TogglePin_unpinned by assumption.
      apply in_or_app. right. now left. }
  assert (B : In col (pinnedColumns st) ->
              pinnedColumns (TogglePin col (TogglePin col st))
              = filter (fun c => negb (c =? col)%string) (pinnedColumns st)
                ++ [col]).
  { intros I. rewrite TogglePin_unpinned.
    - now rewrite TogglePin_pinned.
    - rewrite TogglePin_pinned by assumption.
      rewrite filter_In, String.eqb_refl. simpl. intros [_ F]. discriminate F. }
  split; [exact A|]. split.
  - intros l1 l2 E N1 N2. rewrite B by (rewrite E; apply in_elt).
    rewrite E, filter_other_app by assumption. now rewrite app_assoc.
  - intros x. destruct (in_dec string_dec col (pinnedColumns st)) as [I|N].
    + rewrite B by assumption. rewrite in_app_iff, filter_In. simpl.
      destruct (String.eqb_spec x col) as [->|Nx]; simpl.
      * tauto.
      * split; [intros [[Hx _]|[Hx|[]]]; [assumption|congruence]|].
        intros Hx. left. auto.
    + now rewrite A.
Qed.

Lemma TogglePin_twice_witness :
  pinnedColumns (TogglePin "flag" (TogglePin "flag" pinned_pop_capital))
  = ["pop"; "capital"]
  /\ pinnedColumns (TogglePin "pop" (TogglePin "pop" pinned_pop_capital))
     = [] ++ ["capital"] ++ ["pop"].
Proof.
  split.
  - apply (proj1 (TogglePin_twice "flag" pinned_pop_capital)).
    simpl. intros [E|[E|[]]]; discriminate E.
  - apply (proj1 (proj2 (TogglePin_twice "pop" pinned_pop_capital))
             [] ["capital"]).
    + reflexivity.
    + simpl. tauto.
    + simpl. intros [E|[]]. discriminate E.
Defined.

(** C5: pinning or unpinning a column changes PinnedColumns and nothing
    else: the data and the order of its rows, the sort state, the loading
    flag and the error stay as they are. *)
Theorem TogglePin_frame (render : State) (col : string) (st : State) :
  (data (handlePinning render col st) = data st
   /\ sortedOn (handlePinning render col st) = sortedOn st
   /\ loading (handlePinning render col st) = loading st
   /\ error (handlePinning render col st) = error st)
  /\ data (TogglePin col st) = data st
  /\ sortedOn (TogglePin col st) = sortedOn st.
Proof.
  unfold TogglePin, handlePinning.
  destruct (includes col (pinnedColumns render)),
           (includes col (pinnedColumns st)); simpl; auto.
Qed.

(** ** The derived columns *)

Lemma flatten_filter (f : string -> bool) (ll : list (list string)) :
  flatten (map (filter f) ll) = filter f (flatten ll).
Proof.
  unfold flatten. induction ll as [|l ll IH]; simpl; [reflexivity|].
  now rewrite filter_app, IH.
Qed.

Lemma initialColumns_uniq (data : list Row) :
  initialColumns data = uniq (filter visible (all_keys data)).
Proof.
  unfold initialColumns, all_keys. f_equal.
  rewrite <- flatten_filter, map_map. reflexivity.
Qed.

Lemma initialColumns_In (k : string) (data : list Row) :
  In k (initialColumns data) <->
  In k (all_keys data) /\ startsWith k "_" = false.
Proof.
  rewrite initialColumns_uniq, uniq_In, filter_In. unfold visible.
  now rewrite negb_true_iff.
Qed.

Lemma newColumns_In (k : string) (pinned initial : list string) :
  In k (newColumns pinned initial) <-> In k pinned \/ In k initial.
Proof. unfold newColumns. now rewrite uniq_In, in_app_iff. Qed.

Lemma newColumns_NoDup (pinned initial : list string) :
  NoDup (newColumns pinned initial).
Proof. apply uniq_NoDup. Qed.

Lemma before_newColumns (x y : string) (pinned initial : list string) :
  before x y (newColumns pinned initial) <-> before x y (pinned ++ initial).
Proof. apply before_uniq. Qed.

Lemma before_app_pinned (p u : string) (pinned initial : list string) :
  In p pinned -> ~ In u pinned -> before p u (pinned ++ initial).
Proof.
  intros Ip Nu. unfold before. rewrite !first_index_app.
  apply includes_In in Ip as Ep. apply includes_not_In in Nu as Eu.
  rewrite Ep, Eu. apply first_index_In in Ip. lia.
Qed.

Lemma count_occ_one (k : string) (l : list string) :
  NoDup l -> In k l -> count_occ string_dec l k = 1%nat.
Proof. intros N I. now apply (proj1 (NoDup_count_occ' string_dec l) N). Qed.

(** C3, as it is stated, fails: the key "_id" of the one row is not in the
    list of columns. *)
Lemma ColumnList_counterexample :
  In "_id" (all_keys underscore_row)
  /\ newColumns [] (initialColumns underscore_row) = ["state"]
  /\ ~ (forall k, In k (all_keys underscore_row) ->
        count_occ string_dec (newColumns [] (initialColumns underscore_row)) k
        = 1%nat).
Proof.
  simpl. split; [now left|]. split; [reflexivity|].
  intros A. specialize (A "_id" (or_introl eq_refl)). discriminate A.
Qed.

(** C3, amended: the list of columns has no column twice; it has every key
    of every row that does not start with an underscore; every pinned column
    comes before every column that is not pinned; the pinned columns are in
    the order in which they were pinned, and the others in the order in
    which the rows first show them. *)
Theorem ColumnList_spec (data : list Row) (pinned : list string) :
  let cols := newColumns pinned (initialColumns data) in
  NoDup cols
  /\ (forall k, In k (all_keys data) -> startsWith k "_" = false ->
                count_occ string_dec cols k = 1%nat)
  /\ (forall p u, In p pinned -> ~ In u pinned -> before p u cols)
  /\ (forall p q, In p pinned -> In q pinned ->
                  (before p q cols <-> before p q pinned))
  /\ (forall u v, In u cols -> In v cols -> ~ In u pinned -> ~ In v pinned ->
                  (before u v cols <-> before u v (all_keys data))).
Proof.
  intros cols. subst cols.
  split; [apply newColumns_NoDup|]. split; [|split; [|split]].
  - intros k Ik Vk. apply count_occ_one; [apply newColumns_NoDup|].
    apply newColumns_In. right. now apply initialColumns_In.
  - intros p u Ip Nu. apply before_newColumns. now apply before_app_pinned.
  - intros p q Ip Iq. rewrite before_newColumns. unfold before.
    rewrite !first_index_app.
    apply includes_In in Ip. apply includes_In in Iq. now rewrite Ip, Iq.
  - intros u v Iu Iv Nu Nv. rewrite before_newColumns.
    apply newColumns_In in Iu. apply newColumns_In in Iv.
    destruct Iu as [Iu|Iu]; [contradiction|].
    destruct Iv as [Iv|Iv]; [contradiction|].
    apply initialColumns_In in Iu. apply initialColumns_In in Iv.
    transitivity (before u v (initialColumns data)).
    + unfold before. rewrite !first_index_app.
      apply includes_not_In in Nu. apply includes_not_In in Nv.
      rewrite Nu, Nv. lia.
    + rewrite initialColumns_uniq, before_uniq.
      apply before_filter; unfold visible; apply negb_true_iff; tauto.
Qed.

Lemma ColumnList_spec_witness :
  count_occ string_dec (newColumns ["pop"] (initialColumns two_states))
            "capital" = 1%nat
  /\ before "pop" "state" (newColumns ["pop"] (initialColumns two_states))
  /\ (before "state" "capital"
        (newColumns ["pop"] (initialColumns two_states))
      <-> before "state" "capital" (all_keys two_states))
  /\ newColumns ["pop"] (initialColumns two_states)
     = ["pop"; "state"; "capital"].
Proof.
  pose proof (ColumnList_spec two_states ["pop"]) as S. simpl in S.
  destruct S as (_ & S1 & S2 & _ & S4).
  split; [|split; [|split]].
  - apply S1; [simpl; tauto|reflexivity].
  - apply S2; [now left|]. intros [E|[]]. discriminate E.
  - apply S4.
    + simpl. tauto.
    + simpl. tauto.
    + intros [E|[]]. discriminate E.
    + intros [E|[]]. discriminate E.
  - reflexivity.
Defined.

(** C9: a pinned column is in the list of columns whatever the rows are,
    also when no row has it as a key, and it comes before every column of
    the list that is not pinned. *)
Theorem pinned_column_listed (data : list Row) (pinned : list string)
        (p : string) :
  In p pinned ->
  In p (newColumns pinned (initialColumns data))
  /\ (forall u, In u (newColumns pinned (initialColumns data)) ->
                ~ In u pinned ->
                before p u (newColumns pinned (initialColumns data))).
Proof.
  intros Ip. split.
  - apply newColumns_In. now left.
  - intros u _ Nu. apply before_newColumns. now apply before_app_pinned.
Qed.

Lemma pinned_column_listed_witness :
  ~ In "motto" (all_keys two_states)
  /\ In "motto" (newColumns ["motto"] (initialColumns two_states))
  /\ before "motto" "state" (newColumns ["motto"] (initialColumns two_states)).
Proof.
  destruct (pinned_column_listed two_states ["motto"] "motto") as [A B];
    [now left|].
  split; [|split].
  - simpl. intros F. repeat (destruct F as [F|F]; [discriminate F|]). exact F.
  - exact A.
  - apply B.
    + simpl. tauto.
    + intros [E|[]]. discriminate E.
Defined.

(** ** Strings *)

Lemma toLowerCase_app (s t : string) :
  toLowerCase (s ++ t) = (toLowerCase s ++ toLowerCase t)%string.
Proof. induction s as [|c s IH]; simpl; [reflexivity|now rewrite IH]. Qed.

Lemma toLowerCase_app_inv (s a b : string) :
  toLowerCase s = (a ++ b)%string ->
  exists p q, s = (p ++ q)%string /\ toLowerCase p = a /\ toLowerCase q = b.
Proof.
  revert s. induction a as [|c a IH]; intros s E; simpl in E.
  - exists EmptyString, s. auto.
  - destruct s as [|d s]; simpl in E; [discriminate|].
    injection E as Ec Es. destruct (IH s Es) as (p & q & -> & Hp & Hq).
    exists (String d p), q. simpl. now rewrite Ec, Hp.
Qed.

Lemma endsWith_spec (s suffix : string) :
  endsWith s suffix = true <-> exists pre, s = (pre ++ suffix)%string.
Proof.
  induction s as [|c s IH].
  - change (endsWith "" suffix) with (("" =? suffix)%string || false).
    rewrite orb_false_r, String.eqb_eq. split.
    + intros <-. now exists EmptyString.
    + intros [pre E]. destruct pre; simpl in E; [assumption|discriminate].
  - change (endsWith (String c s) suffix)
      with ((String c s =? suffix)%string || endsWith s suffix).
    rewrite orb_true_iff, IH, String.eqb_eq. split.
    + intros [<-|[pre ->]]; [now exists EmptyString|now exists (String c pre)].
    + intros [[|d pre] E]; simpl in E; [now left|].
      injection E as _ ->. right. now exists pre.
Qed.

Section Grid.

Context `{Runtime}.

(** ** What a cell shows *)

Lemma prop_missing (row : Row) (key : string) :
  ~ In key (Object_keys row) -> prop row key = VUndefined.
Proof.
  induction row as [|[k v] row IH]; simpl; [reflexivity|].
  intros N. destruct (String.eqb_spec k key); [tauto|]. apply IH. tauto.
Qed.

(** C6: what a cell shows is decided in this order.  A string that ends in
    ".png", in whatever case, is shown as an image with the string as its
    source; otherwise a number is shown as the text that [toLocaleString]
    gives for it in the locale of the host, groups of three digits with
    commas in en-US (1234567 as "1,234,567"); otherwise the value itself is
    the text; and for a key that the row does not have nothing is shown. *)
Theorem Cell_rendering (pinned : bool) :
  (forall s pre suffix,
      s = (pre ++ suffix)%string -> toLowerCase suffix = ".png" ->
      td_child (Cell (VString s) pinned) = Img s)
  /\ (forall n,
        td_child (Cell (VNumber n) pinned) = Text (VString (toLocaleString n)))
  /\ (forall s,
        (forall pre suffix,
            s = (pre ++ suffix)%string -> toLowerCase suffix <> ".png") ->
        td_child (Cell (VString s) pinned) = Text (VString s)
        /\ textContent (td_child (Cell (VString s) pinned)) = s)
  /\ (forall row col,
        ~ In col (Object_keys row) ->
        textContent (td_child (Cell (prop row col) pinned)) = "")
  /\ (td_child (@Cell en_US (VString "flag.png") pinned) = Img "flag.png"
      /\ textContent (td_child (@Cell en_US (VNumber 1234567) pinned))
         = "1,234,567"
      /\ textContent (td_child (@Cell en_US (VString "Texas") pinned))
         = "Texas").
Proof.
  split; [|split; [|split; [|split]]].
  - intros s pre suffix -> L. simpl.
    replace (endsWith (toLowerCase (pre ++ suffix)) ".png") with true;
      [reflexivity|].
    symmetry. apply endsWith_spec. exists (toLowerCase pre).
    now rewrite toLowerCase_app, L.
  - reflexivity.
  - intros s N. simpl.
    destruct (endsWith (toLowerCase s) ".png") eqn:E; [|split; reflexivity].
    apply endsWith_spec in E. destruct E as [pre E].
    apply toLowerCase_app_inv in E. destruct E as (p & q & E & _ & L).
    exfalso. exact (N p q E L).
  - intros row col N. now rewrite prop_missing.
  - repeat split; reflexivity.
Qed.

(** ** The first render and the load *)

(** C10: before the load begins the loading flag is false, there is no
    error, no row and no pinned column, and the sort state is "state",
    ascending; the first render is then a table with no header cell and no
    row, and not the loading indicator. *)
Theorem initial_render :
  loading initialState = false
  /\ error initialState = None
  /\ data initialState = []
  /\ pinnedColumns initialState = []
  /\ sortedOn initialState = {| direction := ASC; column := "state" |}
  /\ DataGrid initialState = Table [] []
  /\ DataGrid initialState <> Div "Loading...".
Proof. repeat split; try reflexivity. discriminate. Qed.

Lemma getStatesData_fetch_rejected (net : Network) (st : State) (err : Error) :
  net STATE_DATA_URL = Rejected err ->
  getStatesData net st =
  (inr tt,
   setError "Error fetching states" (setLoading false (setLoading true st)),
   [Fetch STATE_DATA_URL; Await (setLoading true st);
    ConsoleError "Error fetching states" (message err)]).
Proof.
  intros E. unfold getStatesData, try_catch, bind, fetch, await, set, emit, ret.
  simpl. rewrite E. reflexivity.
Qed.

Lemma getStatesData_json_rejected (net : Network) (st : State)
      (res : Response) (err : Error) :
  net STATE_DATA_URL = Resolved res -> json res = Rejected err ->
  getStatesData net st =
  (inr tt,
   setError "Error fetching states" (setLoading false (setLoading true st)),
   [Fetch STATE_DATA_URL; Await (setLoading true st);
    Await (setLoading true st);
    ConsoleError "Error fetching states" (message err)]).
Proof.
  intros E J. unfold getStatesData, try_catch, bind, fetch, await, set, emit, ret.
  simpl. rewrite E, J. reflexivity.
Qed.

Lemma getStatesData_resolved (net : Network) (st : State)
      (res : Response) (statesData : list Row) :
  net STATE_DATA_URL = Resolved res -> json res = Resolved statesData ->
  getStatesData net st =
  (inr tt,
   setData statesData (setLoading false (setLoading true st)),
   [Fetch STATE_DATA_URL; Await (setLoading true st);
    Await (setLoading true st)]).
Proof.
  intros E J. unfold getStatesData, try_catch, bind, fetch, await, set, emit, ret.
  simpl. rewrite E, J. reflexivity.
Qed.

Lemma load_fails_run (net : Network) :
  load_fails net ->
  state_after (getStatesData net) initialState = failed
  /\ fetches (effects_of (getStatesData net) initialState) = [STATE_DATA_URL]
  /\ (forall st,
        In st (shown_pending (effects_of (getStatesData net) initialState)) ->
        st = setLoading true initialState).
Proof.
  unfold state_after, effects_of.
  intros [[err E]|(res & err & E & J)].
  - rewrite (getStatesData_fetch_rejected net _ err E). simpl.
    repeat split. intros st [<-|[]]. reflexivity.
  - rewrite (getStatesData_json_rejected net _ res err E J). simpl.
    repeat split. intros st [<-|[<-|[]]]; reflexivity.
Qed.

(** C7: when the load fails, the error message is set, the loading flag is
    false and there is still no row; the grid shows the error text and
    nothing else.  One request was made in all, and nothing more happens:
    no header is there to click, and the grid stays in that state. *)
Theorem load_failure (net : Network) :
  load_fails net ->
  let st := state_after (getStatesData net) initialState in
  error st = Some "Error fetching states"
  /\ loading st = false
  /\ data st = []
  /\ DataGrid st = Div "Error fetching states"
  /\ fetches (effects_of (getStatesData net) initialState) = [STATE_DATA_URL]
  /\ (forall st', reachable net st' ->
        st' = initialState \/ st' = setLoading true initialState \/ st' = st).
Proof.
  intros F st. destruct (load_fails_run net F) as (S & O & P).
  subst st. rewrite S. repeat split; try reflexivity; try assumption.
  intros st' R. induction R as [|st I| |st col metaKey R IH C].
  - now left.
  - right. left. now apply P.
  - right. right. assumption.
  - exfalso. destruct IH as [-> | [-> | ->]]; simpl in C; exact C.
Qed.

(** ** Keys that are not shown *)

Lemma headers_DataGrid (st : State) (col : string) :
  In col (headers (DataGrid st)) -> In col (columns st).
Proof.
  unfold DataGrid. destruct (loading st); [contradiction|].
  destruct (truthy (error st)); [contradiction|].
  simpl. rewrite map_map. simpl. now rewrite map_id.
Qed.

Lemma handleSort_pinnedColumns (render : State) (col : string) (st : State) :
  pinnedColumns (handleSort render col st) = pinnedColumns st.
Proof.
  unfold handleSort. destruct (column (sortedOn render) =? col)%string;
    [destruct (direction (sortedOn render))|]; reflexivity.
Qed.

Lemma getStatesData_run (net : Network) (st : State) :
  pinnedColumns (state_after (getStatesData net) st) = pinnedColumns st
  /\ (forall s, In s (shown_pending (effects_of (getStatesData net) st)) ->
                s = setLoading true st).
Proof.
  unfold state_after, effects_of.
  destruct (net STATE_DATA_URL) as [res|err] eqn:E;
    [destruct (json res) as [statesData|err] eqn:J|].
  - rewrite (getStatesData_resolved net st res statesData E J). simpl.
    split; [reflexivity|]. intros s [<-|[<-|[]]]; reflexivity.
  - rewrite (getStatesData_json_rejected net st res err E J). simpl.
    split; [reflexivity|]. intros s [<-|[<-|[]]]; reflexivity.
  - rewrite (getStatesData_fetch_rejected net st err E). simpl.
    split; [reflexivity|]. intros s [<-|[]]. reflexivity.
Qed.

Lemma columns_In (st : State) (k : string) :
  In k (columns st) <->
  In k (pinnedColumns st)
  \/ (In k (all_keys (data st)) /\ startsWith k "_" = false).
Proof. unfold columns. now rewrite newColumns_In, initialColumns_In. Qed.

(** No column with a leading underscore ever gets pinned: only a column
    that has a header can be. *)
Lemma reachable_pinned_visible (net : Network) (st : State) :
  reachable net st ->
  forall p, In p (pinnedColumns st) -> startsWith p "_" = false.
Proof.
  induction 1 as [|st I| |st col metaKey R IH C]; intros p Ip.
  - contradiction.
  - apply (proj2 (getStatesData_run net initialState)) in I. subst st.
    contradiction.
  - rewrite (proj1 (getStatesData_run net initialState)) in Ip. contradiction.
  - apply headers_DataGrid, columns_In in C.
    assert (Vc : startsWith col "_" = false) by (destruct C as [C|[_ C]]; auto).
    unfold onClick in Ip. destruct metaKey.
    + unfold handlePinning in Ip.
      destruct (includes col (pinnedColumns st)); simpl in Ip.
      * apply filter_In in Ip. now apply IH.
      * apply in_app_or in Ip. destruct Ip as [Ip|[<-|[]]]; auto.
    + rewrite handleSort_pinnedColumns in Ip. auto.
Qed.

(** C8: a key with a leading underscore is not among the columns taken from
    the rows, whatever the data; and in every state the grid goes through it
    is not in the list of columns and has no header. *)
Theorem underscore_keys_hidden (k : string) :
  startsWith k "_" = true ->
  (forall data, ~ In k (initialColumns data))
  /\ (forall net st, reachable net st ->
        ~ In k (columns st) /\ ~ In k (headers (DataGrid st))).
Proof.
  intros U. split.
  - intros data I. apply initialColumns_In in I. destruct I as [_ I]. congruence.
  - intros net st R.
    assert (N : ~ In k (columns st)).
    { intros I. apply columns_In in I. destruct I as [I|[_ I]].
      - apply (reachable_pinned_visible net st R) in I. congruence.
      - congruence. }
    split; [exact N|]. intros I. apply N. now apply headers_DataGrid.
Qed.

(** ** Sorting *)

Lemma strict_eq_refl (v : value) : strict_eq v v = true.
Proof.
  destruct v; simpl; [reflexivity|apply Z.eqb_refl|apply String.eqb_refl].
Qed.

Lemma strict_eq_eq (a b : value) : strict_eq a b = true <-> a = b.
Proof.
  destruct a, b; simpl; try (split; [discriminate|congruence]).
  - tauto.
  - rewrite Z.eqb_eq. split; congruence.
  - rewrite String.eqb_eq. split; congruence.
Qed.

Lemma string_leb_trans (s t u : string) :
  String.leb s t = true -> String.leb t u = true -> String.leb s u = true.
Proof.
  unfold String.leb. intros A B.
  destruct (String.compare s t) eqn:C1; [| |discriminate];
    destruct (String.compare t u) eqn:C2; try discriminate.
  - apply String_as_OT.cmp_eq in C1. subst. now rewrite C2.
  - apply String_as_OT.cmp_eq in C1. subst. now rewrite C2.
  - apply String_as_OT.cmp_eq in C2. subst. now rewrite C1.
  - apply String_as_OT.cmp_lt in C1, C2.
    pose proof (String_as_OT.lt_trans _ _ _ C1 C2) as L.
    apply String_as_OT.cmp_lt in L. unfold String_as_OT.cmp in L.
    now rewrite L.
Qed.

(** On one kind of values [compareAscending] decides [value_le]. *)
Lemma compareAscending_le (k : bool) (a b : value) :
  of_kind k a = true -> of_kind k b = true ->
  ((compareAscending a b >? 0)%Z = false <-> value_le a b).
Proof.
  destruct k, a as [|m|s], b as [|n|t]; simpl; try discriminate; intros _ _;
    unfold compareAscending, js_gt, js_lt; simpl;
    try (split; [trivial|reflexivity]); try (split; [discriminate|contradiction]).
  - destruct (Z.eqb_spec m n) as [->|N]; simpl.
    + split; [lia|reflexivity].
    + destruct (Z.ltb_spec n m); simpl; [split; [discriminate|lia]|].
      rewrite orb_false_r.
      destruct (Z.ltb_spec m n); simpl; split; try reflexivity; lia.
  - unfold String.ltb, String.leb. rewrite (String.compare_antisym s t).
    destruct (String.eqb_spec s t) as [->|N]; simpl.
    + replace (String.compare t t) with Eq; [split; reflexivity|].
      symmetry. now apply String_as_OT.cmp_eq.
    + destruct (String.compare t s) eqn:C; simpl;
        split; try reflexivity; discriminate.
Qed.

Lemma value_le_total (k : bool) (a b : value) :
  of_kind k a = true -> of_kind k b = true -> value_le a b \/ value_le b a.
Proof.
  destruct k, a as [|m|s], b as [|n|t]; simpl; try discriminate; intros _ _;
    auto; [lia|apply String.leb_total].
Qed.

Lemma value_le_trans (k : bool) (a b c : value) :
  of_kind k a = true -> of_kind k b = true -> of_kind k c = true ->
  value_le a b -> value_le b c -> value_le a c.
Proof.
  destruct k, a as [|m|s], b as [|n|t], c as [|p|u]; simpl;
    try discriminate; intros _ _ _; auto; try contradiction;
    [lia|apply string_leb_trans].
Qed.

Lemma Forall_perm {A : Type} (P : A -> Prop) (l l' : list A) :
  Permutation l l' -> Forall P l -> Forall P l'.
Proof.
  intros E F. rewrite Forall_forall in *. intros x Hx. apply F.
  now apply (Permutation_in _ (Permutation_sym E)).
Qed.

Lemma insert_by_perm (col : string) (x : Row) (l : list Row) :
  Permutation (insert_by col x l) (x :: l).
Proof.
  induction l as [|y l IH]; simpl; [reflexivity|].
  destruct (compareAscending (prop x col) (prop y col) >? 0)%Z; [|reflexivity].
  rewrite IH. apply perm_swap.
Qed.

Lemma sortBy_perm (col : string) (l : list Row) :
  Permutation (sortBy l col) l.
Proof.
  induction l as [|x l IH]; simpl; [reflexivity|].
  rewrite insert_by_perm. now constructor.
Qed.

(** Rows that the comparer does not tell apart keep their order. *)
Lemma insert_by_filter (col : string) (q : Row -> bool) (x : Row)
      (l : list Row) :
  (forall y, q x = true -> q y = true ->
             (compareAscending (prop x col) (prop y col) >? 0)%Z = false) ->
  filter q (insert_by col x l) = filter q (x :: l).
Proof.
  intros Q. induction l as [|y l IH]; [reflexivity|].
  simpl insert_by.
  destruct (compareAscending (prop x col) (prop y col) >? 0)%Z eqn:G;
    [|reflexivity].
  cbn [filter]. rewrite IH. cbn [filter].
  destruct (q x) eqn:Qx, (q y) eqn:Qy; try reflexivity.
  rewrite (Q y eq_refl Qy) in G. discriminate G.
Qed.

Lemma sortBy_stable (col : string) (v : value) (l : list Row) :
  filter (has col v) (sortBy l col) = filter (has col v) l.
Proof.
  induction l as [|x l IH]; [reflexivity|].
  simpl sortBy. rewrite insert_by_filter.
  - simpl. now rewrite IH.
  - unfold has. intros y Hx Hy.
    apply strict_eq_eq in Hx, Hy. rewrite Hx, Hy.
    unfold compareAscending. now rewrite strict_eq_refl.
Qed.

Section OneKind.

Variable col : string.
Variable k : bool.

Lemma insert_by_sorted (x : Row) (l : list Row) :
  in_kind col k x -> Forall (in_kind col k) l ->
  ascending_by col l -> ascending_by col (insert_by col x l).
Proof.
  intros Kx Kl S. induction S as [|y l S IH F]; simpl.
  - repeat constructor.
  - apply Forall_cons_iff in Kl. destruct Kl as [Ky Kl].
    destruct (compareAscending (prop x col) (prop y col) >? 0)%Z eqn:G.
    + constructor; [now apply IH|].
      apply (Forall_perm _ _ _ (Permutation_sym (insert_by_perm col x l))).
      constructor; [|assumption].
      destruct (value_le_total k _ _ Kx Ky) as [L|L]; [|assumption].
      apply (compareAscending_le k _ _ Kx Ky) in L. congruence.
    + apply (compareAscending_le k _ _ Kx Ky) in G.
      constructor; [now constructor|]. constructor; [assumption|].
      rewrite Forall_forall in *. intros z Hz.
      apply (value_le_trans k _ (prop y col)); auto.
      apply Kl; assumption.
Qed.

Lemma sortBy_sorted (l : list Row) :
  Forall (in_kind col k) l -> ascending_by col (sortBy l col).
Proof.
  induction 1 as [|x l Kx Kl IH]; simpl; [constructor|].
  apply insert_by_sorted; [assumption| |assumption].
  now apply (Forall_perm _ _ _ (Permutation_sym (sortBy_perm col l))).
Qed.

(** Sorting rows that are in order already changes nothing. *)
Lemma sortBy_of_sorted (l : list Row) :
  Forall (in_kind col k) l -> ascending_by col l -> sortBy l col = l.
Proof.
  intros Kl S. induction S as [|x l S IH F]; [reflexivity|].
  apply Forall_cons_iff in Kl. destruct Kl as [Kx Kl].
  simpl. rewrite (IH Kl). destruct l as [|y l]; [reflexivity|].
  simpl. apply Forall_inv in F. apply Forall_inv in Kl.
  apply (compareAscending_le k _ _ Kx Kl) in F. now rewrite F.
Qed.

End OneKind.

Lemma comparable_kind (col : string) (l : list Row) :
  comparable col l = true ->
  exists k, Forall (fun row => of_kind k (prop row col) = true) l.
Proof.
  unfold comparable. rewrite orb_true_iff, !forallb_forall.
  intros [A|A]; [exists true|exists false]; now apply Forall_forall.
Qed.

Lemma comparable_perm (col : string) (l l' : list Row) :
  Permutation l l' -> comparable col l = true -> comparable col l' = true.
Proof.
  unfold comparable. rewrite !orb_true_iff, !forallb_forall.
  intros P [A|A]; [left|right]; intros x Hx; apply A;
    now apply (Permutation_in _ (Permutation_sym P)).
Qed.

Lemma sortBy_ascending (col : string) (l : list Row) :
  comparable col l = true -> ascending_by col (sortBy l col).
Proof.
  intros C. destruct (comparable_kind col l C) as [k K].
  now apply (sortBy_sorted col k).
Qed.

Lemma sortBy_idempotent (col : string) (l : list Row) :
  comparable col l = true -> sortBy (sortBy l col) col = sortBy l col.
Proof.
  intros C. destruct (comparable_kind col l C) as [k K].
  apply (sortBy_of_sorted col k).
  - now apply (Forall_perm _ _ _ (Permutation_sym (sortBy_perm col l))).
  - now apply (sortBy_sorted col k).
Qed.

Lemma Sort_other_column (col : string) (st : State) :
  column (sortedOn st) <> col ->
  Sort col st =
  setData (sortBy (data st) col)
    (setSortedOn {| direction := ASC; column := col |} st).
Proof.
  intros N. unfold Sort, handleSort.
  destruct (String.eqb_spec (column (sortedOn st)) col); [contradiction|].
  reflexivity.
Qed.

Lemma Sort_ascending_column (col : string) (st : State) :
  sortedOn st = {| direction := ASC; column := col |} ->
  Sort col st =
  setData (reverse (sortBy (data st) col))
    (setSortedOn {| direction := DEC; column := col |} st).
Proof.
  intros E. unfold Sort, handleSort. rewrite E. simpl.
  now rewrite String.eqb_refl.
Qed.

Lemma Sort_descending_column (col : string) (st : State) :
  sortedOn st = {| direction := DEC; column := col |} ->
  Sort col st =
  setData (sortBy (data st) "state")
    (setSortedOn {| direction := ASC; column := "state" |} st).
Proof.
  intros E. unfold Sort, handleSort. rewrite E. simpl.
  now rewrite String.eqb_refl.
Qed.

(** C1, amended: on a column [col] with comparable values that the grid is
    not sorted on, and whose name lodash reads as the key of a row (a key
    of every row, or a plain name: no dot, no bracket, not a name of
    [Object.prototype]), three clicks go through a cycle.  The first sets the sort
    state to [col], ascending, and puts the rows in ascending order of
    [col], rows of the same value keeping their order.  The second sets the
    direction to descending and gives the rows of the first in the reverse
    order.  The third sets the sort state back to "state", ascending, and
    sorts the rows by "state": they are the rows of the data set, and they
    are in ascending order of "state" when the values of "state" are
    comparable too. *)
Theorem Sort_three_clicks (col : string) (st : State) :
  comparable col (data st) = true ->
  reads_own col (data st) = true ->
  column (sortedOn st) <> col ->
  let s1 := Sort col st in
  let s2 := Sort col s1 in
  let s3 := Sort col s2 in
  (sortedOn s1 = {| direction := ASC; column := col |}
   /\ Permutation (data s1) (data st)
   /\ ascending_by col (data s1)
   /\ forall v, filter (has col v) (data s1) = filter (has col v) (data st))
  /\ (sortedOn s2 = {| direction := DEC; column := col |}
      /\ data s2 = rev (data s1))
  /\ (sortedOn s3 = {| direction := ASC; column := "state" |}
      /\ Permutation (data s3) (data st)
      /\ (comparable "state" (data st) = true ->
          ascending_by "state" (data s3))).
Proof.
  intros C _ N s1 s2 s3.
  assert (E1 : s1 = setData (sortBy (data st) col)
                      (setSortedOn {| direction := ASC; column := col |} st))
    by now apply Sort_other_column.
  assert (E2 : s2 = setData (reverse (sortBy (data s1) col))
                      (setSortedOn {| direction := DEC; column := col |} s1)).
  { apply Sort_ascending_column. now rewrite E1. }
  assert (E3 : s3 = setData (sortBy (data s2) "state")
                      (setSortedOn {| direction := ASC; column := "state" |} s2)).
  { apply Sort_descending_column. now rewrite E2. }
  assert (D1 : data s1 = sortBy (data st) col) by now rewrite E1.
  assert (D2 : data s2 = rev (data s1)).
  { rewrite E2. simpl. unfold reverse. rewrite D1.
    now rewrite sortBy_idempotent. }
  assert (P3 : Permutation (data s2) (data st)).
  { rewrite D2, <- Permutation_rev, D1. apply sortBy_perm. }
  split; [|split].
  - rewrite D1. split; [now rewrite E1|]. split; [apply sortBy_perm|].
    split; [now apply sortBy_ascending|]. intros v. apply sortBy_stable.
  - split; [now rewrite E2|exact D2].
  - split; [now rewrite E3|]. rewrite E3. simpl. split.
    + rewrite sortBy_perm. exact P3.
    + intros C'. apply sortBy_ascending.
      now apply (comparable_perm "state" _ _ (Permutation_sym P3)).
Qed.

End Grid.

(** ** The grid at work *)

Lemma Sort_three_clicks_witness :
  data (Sort "pop" loaded_Texas_Ohio) = [Ohio; Texas]
  /\ data (Sort "pop" (Sort "pop" loaded_Texas_Ohio)) = [Texas; Ohio]
  /\ sortedOn (Sort "pop" (Sort "pop" (Sort "pop" loaded_Texas_Ohio)))
     = {| direction := ASC; column := "state" |}
  /\ data (Sort "pop" (Sort "pop" (Sort "pop" loaded_Texas_Ohio)))
     = [Ohio; Texas]
  /\ ascending_by "state"
       (data (Sort "pop" (Sort "pop" (Sort "pop" loaded_Texas_Ohio)))).
Proof.
  pose (st := loaded_Texas_Ohio).
  assert (C : comparable "pop" (data st) = true) by reflexivity.
  assert (O : reads_own "pop" (data st) = true) by reflexivity.
  assert (N : column (sortedOn st) <> "pop") by discriminate.
  destruct (Sort_three_clicks "pop" st C O N) as (_ & (_ & D2) & S3 & _ & A3).
  split; [reflexivity|]. split; [exact D2|]. split; [exact S3|].
  split; [reflexivity|]. apply A3. reflexivity.
Defined.

(** C1, as it is stated, fails at its third click when "state" holds a
    number in one row and a string in another: the values of "pop" are
    comparable, and after the three clicks on "pop" the row of state 7
    stands before the row of state 5. *)
Lemma Sort_three_clicks_counterexample :
  comparable "pop" (data loaded_mixed) = true
  /\ column (sortedOn loaded_mixed) <> "pop"
  /\ data (Sort "pop" (Sort "pop" (Sort "pop" loaded_mixed))) = mixed_states
  /\ ~ ascending_by "state"
         (data (Sort "pop" (Sort "pop" (Sort "pop" loaded_mixed))))
  /\ reads_own "pop" (data loaded_mixed) = true
  /\ reads_own "state" (data loaded_mixed) = true
  /\ (forall rows, Permutation rows mixed_states ->
                   ~ ascending_by "state" rows).
Proof.
  split; [reflexivity|]. split; [discriminate|].
  split; [reflexivity|].
  assert (G : forall rows, Permutation rows mixed_states ->
                           ~ ascending_by "state" rows).
  { intros rows P S.
    assert (I7 : In [("state", VNumber 7); ("pop", VNumber 3)] rows).
    { apply (Permutation_in _ (Permutation_sym P)). simpl. tauto. }
    assert (Ia : In [("state", VString "abc"); ("pop", VNumber 2)] rows).
    { apply (Permutation_in _ (Permutation_sym P)). simpl. tauto. }
    clear P. unfold ascending_by in S.
    induction S as [|r rows S IH F]; [contradiction|].
    rewrite Forall_forall in F.
    destruct I7 as [E7|I7], Ia as [Ea|Ia].
    - rewrite E7 in Ea. discriminate Ea.
    - specialize (F _ Ia). rewrite E7 in F. exact F.
    - specialize (F _ I7). rewrite Ea in F. exact F.
    - now apply IH. }
  split; [|split; [reflexivity|split; [reflexivity|exact G]]].
  change (data (Sort "pop" (Sort "pop" (Sort "pop" loaded_mixed))))
    with mixed_states.
  unfold ascending_by, mixed_states. intros S.
  apply StronglySorted_inv in S. destruct S as [_ F].
  apply Forall_inv_tail, Forall_inv in F. simpl in F. lia.
Qed.

Lemma underscore_keys_hidden_witness :
  In "_id" (all_keys (data two_states_pop_pinned))
  /\ ~ In "_id" (columns two_states_pop_pinned)
  /\ columns two_states_pop_pinned = ["pop"; "state"; "capital"].
Proof.
  assert (R : reachable two_states_network two_states_pop_pinned).
  { apply reach_click; [apply reach_loaded|]. simpl. tauto. }
  split; [simpl; tauto|]. split; [|reflexivity].
  apply (proj2 (underscore_keys_hidden "_id" eq_refl) two_states_network _ R).
Defined.

Lemma load_failure_witness :
  DataGrid (state_after (getStatesData failing_network) initialState)
  = Div "Error fetching states"
  /\ data (state_after (getStatesData failing_network) initialState) = [].
Proof.
  assert (F : load_fails failing_network).
  { left. exists {| message := "Failed to fetch" |}. reflexivity. }
  destruct (load_failure failing_network F) as (_ & _ & D & V & _).
  split; [exact V|exact D].
Defined.

Lemma Cell_rendering_witness :
  td_child (Cell (VString "/flags/TX.PNG") false) = Img "/flags/TX.PNG"
  /\ textContent (td_child (Cell (VString "Texas") false)) = "Texas"
  /\ textContent (td_child (Cell (prop Texas "capital") false)) = "".
Proof.
  destruct (Cell_rendering false) as (A & _ & B & C & _).
  split; [|split].
  - apply (A _ "/flags/TX" ".PNG"); reflexivity.
  - apply B. intros pre suffix E L.
    assert (T : toLowerCase "Texas" = (toLowerCase pre ++ ".png")%string).
    { rewrite <- L, <- toLowerCase_app. now f_equal. }
    assert (W : endsWith (toLowerCase "Texas") ".png" = true).
    { apply endsWith_spec. now exists (toLowerCase pre). }
    discriminate W.
  - apply C. simpl. intros [E|[E|[]]]; discriminate E.
Defined.

(** * More of the grid *)

(** ** Pinning and the columns *)

Lemma TogglePin_data (col : string) (st : State) :
  data (TogglePin col st) = data st.
Proof.
  unfold TogglePin, handlePinning.
  now destruct (includes col (pinnedColumns st)).
Qed.

Lemma same_elements_length (l1 l2 : list string) :
  NoDup l1 -> NoDup l2 -> (forall k, In k l1 <-> In k l2) ->
  List.length l1 = List.length l2.
Proof.
  intros N1 N2 E. apply Permutation_length. now apply NoDup_Permutation.
Qed.

Lemma TogglePin_In (col : string) (st : State) :
  (In col (pinnedColumns (TogglePin col st)) <-> ~ In col (pinnedColumns st))
  /\ (forall k, k <> col ->
        (In k (pinnedColumns (TogglePin col st)) <-> In k (pinnedColumns st))).
Proof.
  destruct (in_dec string_dec col (pinnedColumns st)) as [I|N].
  - rewrite TogglePin_pinned by assumption. split.
    + rewrite filter_In, String.eqb_refl. simpl. split; [intros [_ F]|]; easy.
    + intros k Nk. rewrite filter_In.
      destruct (String.eqb_spec k col); [contradiction|]. simpl. tauto.
  - rewrite TogglePin_unpinned by assumption. split.
    + rewrite in_app_iff. simpl. tauto.
    + intros k Nk. rewrite in_app_iff. simpl. split; [|tauto].
      intros [I|[E|[]]]; [assumption|congruence].
Qed.

(** Toggling a column changes whether this column is pinned, and changes
    it for no other column. *)
Theorem TogglePin_membership (col : string) (st : State) :
  (In col (pinnedColumns (TogglePin col st)) <-> ~ In col (pinnedColumns st))
  /\ (forall k, k <> col ->
        (In k (pinnedColumns (TogglePin col st)) <-> In k (pinnedColumns st))).
Proof. apply TogglePin_In. Qed.

Lemma TogglePin_membership_witness :
  In "pop" (pinnedColumns (TogglePin "pop" initialState))
  /\ (In "capital" (pinnedColumns (TogglePin "pop" pinned_pop_capital))
      <-> In "capital" (pinnedColumns pinned_pop_capital)).
Proof.
  split.
  - apply (proj1 (TogglePin_membership "pop" initialState)). simpl. tauto.
  - apply (proj2 (TogglePin_membership "pop" pinned_pop_capital)). discriminate.
Defined.

Lemma TogglePin_columns_In (col : string) (st : State) (k : string) :
  In col (initialColumns (data st)) ->
  In k (columns (TogglePin col st)) <-> In k (columns st).
Proof.
  intros I. unfold columns. rewrite TogglePin_data, !newColumns_In.
  destruct (string_dec k col) as [->|Nk]; [tauto|].
  now rewrite (proj2 (TogglePin_In col st) k Nk).
Qed.

(** Pinning or unpinning a column that the rows have (a key of some row,
    without a leading underscore) moves it in the list of columns and
    neither adds a column nor takes one away. *)
Theorem TogglePin_columns (col : string) (st : State) :
  In col (initialColumns (data st)) ->
  (forall k, In k (columns (TogglePin col st)) <-> In k (columns st))
  /\ List.length (columns (TogglePin col st)) = List.length (columns st).
Proof.
  intros I. split; [intros k; now apply TogglePin_columns_In|].
  apply same_elements_length; [apply newColumns_NoDup..|].
  intros k. now apply TogglePin_columns_In.
Qed.

Lemma TogglePin_columns_witness :
  (In "state" (columns (TogglePin "pop" two_states_loaded))
   <-> In "state" (columns two_states_loaded))
  /\ List.length (columns (TogglePin "pop" two_states_loaded)) = 3%nat
  /\ columns (TogglePin "pop" two_states_loaded) = ["pop"; "state"; "capital"]
  /\ columns two_states_loaded = ["state"; "pop"; "capital"].
Proof.
  assert (I : In "pop" (initialColumns (data two_states_loaded))).
  { simpl. tauto. }
  destruct (TogglePin_columns "pop" two_states_loaded I) as [E L].
  split; [apply E|]. split; [exact L|]. split; reflexivity.
Defined.

(** The list of columns is the pinned columns followed by the columns of
    the rows that are not pinned. *)
Lemma newColumns_split (pinned initial : list string) :
  newColumns pinned initial =
  uniq pinned ++ filter (fun k => negb (includes k pinned)) (uniq initial).
Proof.
  unfold newColumns, uniq. rewrite uniq_from_app. f_equal.
  apply uniq_from_filter.
Qed.

Lemma all_keys_In (k : string) (rows : list Row) :
  In k (all_keys rows) <-> exists row, In row rows /\ In k (Object_keys row).
Proof.
  unfold all_keys, flatten. rewrite in_concat. split.
  - intros (ks & Hks & Hk). apply in_map_iff in Hks.
    destruct Hks as (row & <- & Hrow). now exists row.
  - intros (row & Hrow & Hk). exists (Object_keys row). split; [|assumption].
    now apply in_map.
Qed.

Lemma all_keys_perm (k : string) (rows rows' : list Row) :
  Permutation rows rows' -> In k (all_keys rows) <-> In k (all_keys rows').
Proof.
  intros P. rewrite !all_keys_In. split; intros (row & Hrow & Hk);
    exists row; split; try assumption.
  - now apply (Permutation_in _ P).
  - now apply (Permutation_in _ (Permutation_sym P)).
Qed.

Lemma initialColumns_perm (k : string) (rows rows' : list Row) :
  Permutation rows rows' ->
  In k (initialColumns rows) <-> In k (initialColumns rows').
Proof.
  intros P. rewrite !initialColumns_In. now rewrite (all_keys_perm k _ _ P).
Qed.

Lemma StronglySorted_app {A : Type} (R : A -> A -> Prop) (l1 l2 : list A) :
  StronglySorted R l1 -> StronglySorted R l2 ->
  (forall a b, In a l1 -> In b l2 -> R a b) ->
  StronglySorted R (l1 ++ l2).
Proof.
  intros S1 S2 C. induction S1 as [|x l1 S1 IH F]; simpl; [assumption|].
  constructor.
  - apply IH. intros a b Ha Hb. apply C; [now right|assumption].
  - apply Forall_app. split; [assumption|].
    apply Forall_forall. intros b Hb. apply C; [now left|assumption].
Qed.

(** Rows in order, read from the last to the first, are in the opposite
    order. *)
Lemma StronglySorted_rev {A : Type} (R : A -> A -> Prop) (l : list A) :
  StronglySorted R l -> StronglySorted (fun a b => R b a) (rev l).
Proof.
  induction 1 as [|x l S IH F]; simpl; [constructor|].
  apply StronglySorted_app; [assumption|repeat constructor|].
  intros a b Ha [<-|[]]. rewrite Forall_forall in F. apply F.
  now apply in_rev.
Qed.

Section GridMore.

Context `{Runtime}.

(** ** Sorting and the rest of the state *)

Lemma Sort_data_perm (col : string) (st : State) :
  Permutation (data (Sort col st)) (data st).
Proof.
  unfold Sort, handleSort.
  destruct (column (sortedOn st) =? col)%string;
    [destruct (direction (sortedOn st))|]; simpl.
  - unfold reverse. rewrite <- Permutation_rev. apply sortBy_perm.
  - apply sortBy_perm.
  - apply sortBy_perm.
Qed.

(** The sort state after a click, from the sort state before it. *)
Lemma sortedOn_Sort (col : string) (st : State) :
  sortedOn (Sort col st) =
  if (column (sortedOn st) =? col)%string then
    match direction (sortedOn st) with
    | ASC => {| direction := DEC; column := column (sortedOn st) |}
    | DEC => {| direction := ASC; column := "state" |}
    end
  else {| direction := ASC; column := col |}.
Proof.
  unfold Sort, handleSort.
  destruct (column (sortedOn st) =? col)%string;
    [destruct (direction (sortedOn st))|]; reflexivity.
Qed.

(** Sorting and pinning do not get in the way of one another: a sort and a
    toggle give the same state in either order. *)
Theorem Sort_TogglePin_commute (sorted pinned : string) (st : State) :
  TogglePin pinned (Sort sorted st) = Sort sorted (TogglePin pinned st).
Proof.
  unfold TogglePin, Sort, handlePinning, handleSort.
  destruct (column (sortedOn st) =? sorted)%string eqn:C;
    [destruct (direction (sortedOn st)) eqn:D|];
    destruct (includes pinned (pinnedColumns st)) eqn:I;
    simpl; rewrite ?C, ?D, ?I; simpl; rewrite ?C, ?D; reflexivity.
Qed.

(** A sort, on whatever column and whatever its values are, loses no row,
    adds none and changes none, and leaves the pinned columns, the loading
    flag and the error alone. *)
Theorem Sort_frame (col : string) (st : State) :
  Permutation (data (Sort col st)) (data st)
  /\ List.length (data (Sort col st)) = List.length (data st)
  /\ pinnedColumns (Sort col st) = pinnedColumns st
  /\ loading (Sort col st) = loading st
  /\ error (Sort col st) = error st.
Proof.
  split; [apply Sort_data_perm|].
  split; [apply Permutation_length, Sort_data_perm|].
  unfold Sort, handleSort.
  destruct (column (sortedOn st) =? col)%string;
    [destruct (direction (sortedOn st))|]; auto.
Qed.

Lemma Sort_columns_In (col : string) (st : State) (k : string) :
  In k (columns (Sort col st)) <-> In k (columns st).
Proof.
  unfold columns. rewrite !newColumns_In.
  rewrite (initialColumns_perm k _ _ (Sort_data_perm col st)).
  unfold Sort. now rewrite handleSort_pinnedColumns.
Qed.

Lemma Sort_fields (col : string) (st : State) :
  loading (Sort col st) = loading st /\ error (Sort col st) = error st.
Proof.
  unfold Sort, handleSort.
  destruct (column (sortedOn st) =? col)%string;
    [destruct (direction (sortedOn st))|]; auto.
Qed.

(** A sort neither adds a column to the list of columns nor takes one away. *)
Theorem Sort_columns (col : string) (st : State) :
  (forall k, In k (columns (Sort col st)) <-> In k (columns st))
  /\ List.length (columns (Sort col st)) = List.length (columns st).
Proof.
  split; [apply Sort_columns_In|].
  apply same_elements_length; [apply newColumns_NoDup..|].
  apply Sort_columns_In.
Qed.

(** A click on the column that the sort state names as ascending gives
    the rows in descending order of it, whatever order they were in: they
    are sorted and then reversed.  The column is one with comparable values
    whose name lodash reads as the key of a row. *)
Theorem Sort_descending (col : string) (st : State) :
  sortedOn st = {| direction := ASC; column := col |} ->
  comparable col (data st) = true ->
  reads_own col (data st) = true ->
  sortedOn (Sort col st) = {| direction := DEC; column := col |}
  /\ data (Sort col st) = rev (sortBy (data st) col)
  /\ descending_by col (data (Sort col st)).
Proof.
  intros E C _. rewrite (Sort_ascending_column col st E). simpl.
  split; [reflexivity|]. split; [reflexivity|].
  unfold reverse, descending_by.
  apply (StronglySorted_rev
           (fun r1 r2 => value_le (prop r1 col) (prop r2 col))).
  now apply sortBy_ascending.
Qed.

Lemma sortBy_agreeing (col : string) (v : value) (l : list Row) :
  (forall row, In row l -> prop row col = v) -> sortBy l col = l.
Proof.
  intros A.
  rewrite <- (filter_id (has col v) (sortBy l col)).
  - rewrite sortBy_stable. apply filter_id.
    intros row Hrow. unfold has. rewrite (A row Hrow). apply strict_eq_refl.
  - intros row Hrow. unfold has.
    rewrite (A row (Permutation_in _ (sortBy_perm col l) Hrow)).
    apply strict_eq_refl.
Qed.

(** The first click on a column in which all the rows hold the same value
    leaves the rows in their order; so it is for a column that no row has,
    the name being one that lodash reads as the key of a row (without a key
    of that name: a plain name). *)
Theorem Sort_agreeing_column (col : string) (st : State) :
  column (sortedOn st) <> col ->
  reads_own col (data st) = true ->
  (forall v, (forall row, In row (data st) -> prop row col = v) ->
             data (Sort col st) = data st)
  /\ (~ In col (all_keys (data st)) -> data (Sort col st) = data st).
Proof.
  intros N _. rewrite (Sort_other_column col st N). simpl.
  split.
  - intros v A. now apply (sortBy_agreeing col v).
  - intros M. apply (sortBy_agreeing col VUndefined).
    intros row Hrow. apply prop_missing. intros K. apply M.
    apply all_keys_In. now exists row.
Qed.

Lemma sortedOn_Sort_other (col : string) (st : State) :
  column (sortedOn st) <> col ->
  sortedOn (Sort col st) = {| direction := ASC; column := col |}.
Proof. intros N. now rewrite (Sort_other_column col st N). Qed.

Lemma sortedOn_Sort_ascending (col : string) (st : State) :
  sortedOn st = {| direction := ASC; column := col |} ->
  sortedOn (Sort col st) = {| direction := DEC; column := col |}.
Proof. intros E. now rewrite (Sort_ascending_column col st E). Qed.

Lemma sortedOn_Sort_descending (col : string) (st : State) :
  sortedOn st = {| direction := DEC; column := col |} ->
  sortedOn (Sort col st) = {| direction := ASC; column := "state" |}.
Proof. intros E. now rewrite (Sort_descending_column col st E). Qed.

(** Where one click leaves the sort state. *)
Lemma sortedOn_after_click (col : string) (st : State) :
  sortedOn (Sort col st) = {| direction := ASC; column := col |}
  \/ sortedOn (Sort col st) = {| direction := DEC; column := col |}
  \/ sortedOn (Sort col st) = {| direction := ASC; column := "state" |}.
Proof.
  destruct (string_dec (column (sortedOn st)) col) as [E|N].
  - destruct (sortedOn st) as [[|] c] eqn:S; simpl in E; subst c.
    + right. left. now apply sortedOn_Sort_ascending.
    + right. right. now apply sortedOn_Sort_descending.
  - left. now apply sortedOn_Sort_other.
Qed.

Lemma iter_Sort_plus (col : string) (st : State) (n m : nat) :
  Nat.iter (n + m) (Sort col) st
  = Nat.iter m (Sort col) (Nat.iter n (Sort col) st).
Proof. rewrite Nat.add_comm. apply Nat.iter_add. Qed.

(** Three clicks on a column that the grid is not sorted on. *)
Lemma sortedOn_three_clicks (col : string) (s : State) :
  column (sortedOn s) <> col ->
  sortedOn (Sort col s) = {| direction := ASC; column := col |}
  /\ sortedOn (Sort col (Sort col s)) = {| direction := DEC; column := col |}
  /\ sortedOn (Sort col (Sort col (Sort col s)))
     = {| direction := ASC; column := "state" |}.
Proof.
  intros N.
  assert (A : sortedOn (Sort col s) = {| direction := ASC; column := col |})
    by now apply sortedOn_Sort_other.
  split; [exact A|]. split.
  - now apply sortedOn_Sort_ascending.
  - now apply sortedOn_Sort_descending, sortedOn_Sort_ascending.
Qed.

(** Two clicks on "state" when the sort state is the default. *)
Lemma sortedOn_two_clicks_state (s : State) :
  sortedOn s = {| direction := ASC; column := "state" |} ->
  sortedOn (Sort "state" s) = {| direction := DEC; column := "state" |}
  /\ sortedOn (Sort "state" (Sort "state" s))
     = {| direction := ASC; column := "state" |}.
Proof.
  intros E. split; [now apply sortedOn_Sort_ascending|].
  now apply sortedOn_Sort_descending, sortedOn_Sort_ascending.
Qed.

(** Click after click on one column, the sort state goes round.  On a
    column other than "state" that the grid is not sorted on, it is the
    column ascending after the clicks 1, 4, 7, ..., the column descending
    after the clicks 2, 5, 8, ..., and the default, "state" ascending, after
    the clicks 3, 6, 9, ....  On "state", from the default, it is "state"
    descending after an odd number of clicks and "state" ascending after an
    even number: "state" is never left. *)
Theorem Sort_cycle (col : string) (st : State) (k : nat) :
  (col <> "state" -> column (sortedOn st) <> col ->
   sortedOn (Nat.iter (3 * k + 1) (Sort col) st)
   = {| direction := ASC; column := col |}
   /\ sortedOn (Nat.iter (3 * k + 2) (Sort col) st)
      = {| direction := DEC; column := col |}
   /\ sortedOn (Nat.iter (3 * k + 3) (Sort col) st)
      = {| direction := ASC; column := "state" |})
  /\ (col = "state" ->
      sortedOn st = {| direction := ASC; column := "state" |} ->
      sortedOn (Nat.iter (2 * k + 1) (Sort col) st)
      = {| direction := DEC; column := "state" |}
      /\ sortedOn (Nat.iter (2 * k + 2) (Sort col) st)
         = {| direction := ASC; column := "state" |}).
Proof.
  split.
  - intros Ns N.
    assert (B : column (sortedOn (Nat.iter (3 * k) (Sort col) st)) <> col).
    { induction k as [|k IH]; [exact N|].
      replace (3 * S k)%nat with (3 * k + 3)%nat by lia.
      rewrite iter_Sort_plus.
      destruct (sortedOn_three_clicks col _ IH) as (_ & _ & D).
      change (Nat.iter 3 (Sort col) (Nat.iter (3 * k) (Sort col) st))
        with (Sort col (Sort col (Sort col (Nat.iter (3 * k) (Sort col) st)))).
      rewrite D. simpl. congruence. }
    rewrite !iter_Sort_plus.
    exact (sortedOn_three_clicks col _ B).
  - intros -> E.
    assert (B : sortedOn (Nat.iter (2 * k) (Sort "state") st)
                = {| direction := ASC; column := "state" |}).
    { induction k as [|k IH]; [exact E|].
      replace (2 * S k)%nat with (2 * k + 2)%nat by lia.
      rewrite iter_Sort_plus.
      exact (proj2 (sortedOn_two_clicks_state _ IH)). }
    rewrite !iter_Sort_plus.
    exact (sortedOn_two_clicks_state _ B).
Qed.

(** ** The load, on every path *)

(** However the request ends, the load returns without throwing, with the
    loading flag down and after one request; it touches neither the sort
    state nor the pinned columns.  When it fails the rows stay as they were;
    when it succeeds the rows are the ones received, the error stays as it
    was (an earlier error is not cleared) and nothing is written to the
    console. *)
Theorem getStatesData_always (net : Network) (st : State) :
  fst (fst (getStatesData net st)) = inr tt
  /\ loading (state_after (getStatesData net) st) = false
  /\ sortedOn (state_after (getStatesData net) st) = sortedOn st
  /\ pinnedColumns (state_after (getStatesData net) st) = pinnedColumns st
  /\ fetches (effects_of (getStatesData net) st) = [STATE_DATA_URL]
  /\ (load_fails net ->
      data (state_after (getStatesData net) st) = data st
      /\ error (state_after (getStatesData net) st)
         = Some "Error fetching states")
  /\ (forall statesData, resolves net statesData ->
      data (state_after (getStatesData net) st) = statesData
      /\ error (state_after (getStatesData net) st) = error st
      /\ console_errors (effects_of (getStatesData net) st) = []).
Proof.
  unfold state_after, effects_of, load_fails, resolves.
  destruct (net STATE_DATA_URL) as [res|err] eqn:E;
    [destruct (json res) as [d|err] eqn:J|].
  - rewrite (getStatesData_resolved net st res d E J). simpl.
    do 5 (split; [reflexivity|]). split.
    + intros [[err F]|(res' & err & F & J')]; [discriminate F|].
      injection F as <-. congruence.
    + intros d' (res' & F & J'). injection F as <-.
      repeat split; congruence.
  - rewrite (getStatesData_json_rejected net st res err E J). simpl.
    do 5 (split; [reflexivity|]). split; [split; reflexivity|].
    intros d' (res' & F & J'). injection F as <-. congruence.
  - rewrite (getStatesData_fetch_rejected net st err E). simpl.
    do 5 (split; [reflexivity|]). split; [split; reflexivity|].
    intros d' (res' & F & J'). discriminate F.
Qed.

(** While the request is pending the grid shows the loading indicator and
    nothing else; and the load does wait, with the grid in such a state. *)
Theorem pending_shows_loading (net : Network) :
  shown_pending (effects_of (getStatesData net) initialState) <> []
  /\ (forall st,
        In st (shown_pending (effects_of (getStatesData net) initialState)) ->
        loading st = true /\ DataGrid st = Div "Loading...").
Proof.
  split.
  - unfold effects_of.
    destruct (net STATE_DATA_URL) as [res|err] eqn:E;
      [destruct (json res) as [d|err] eqn:J|].
    + rewrite (getStatesData_resolved net _ res d E J). discriminate.
    + rewrite (getStatesData_json_rejected net _ res err E J). discriminate.
    + rewrite (getStatesData_fetch_rejected net _ err E). discriminate.
  - intros st I. apply (proj2 (getStatesData_run net initialState)) in I.
    subst st. split; reflexivity.
Qed.

Lemma columns_no_pin (st : State) :
  pinnedColumns st = [] -> columns st = initialColumns (data st).
Proof.
  intros E. unfold columns, newColumns. rewrite E. simpl.
  apply uniq_of_NoDup. apply uniq_NoDup.
Qed.

Lemma DataGrid_table (st : State) :
  loading st = false -> truthy (error st) = false ->
  DataGrid st =
  Table
    (map (fun col => HeaderCell col (includes col (pinnedColumns st)))
         (columns st))
    (map (fun row =>
            map (fun col =>
                   Cell (prop row col) (includes col (pinnedColumns st)))
                (columns st))
         (data st)).
Proof. intros L E. unfold DataGrid. now rewrite L, E. Qed.

Lemma headers_table (st : State) :
  loading st = false -> truthy (error st) = false ->
  headers (DataGrid st) = columns st.
Proof.
  intros L E. rewrite (DataGrid_table st L E). simpl.
  rewrite map_map. simpl. apply map_id.
Qed.

(** When the load succeeds, the rows are the ones received, in the order
    received (they are not sorted, though the sort state reads "state",
    ascending); there is no error and nothing pinned; and the grid shows a
    table with a header for each key of the rows that has no leading
    underscore, in the order in which the rows first show them. *)
Theorem load_success (net : Network) (statesData : list Row) :
  resolves net statesData ->
  data (state_after (getStatesData net) initialState) = statesData
  /\ loading (state_after (getStatesData net) initialState) = false
  /\ error (state_after (getStatesData net) initialState) = None
  /\ sortedOn (state_after (getStatesData net) initialState)
     = {| direction := ASC; column := "state" |}
  /\ pinnedColumns (state_after (getStatesData net) initialState) = []
  /\ headers (DataGrid (state_after (getStatesData net) initialState))
     = uniq (filter visible (all_keys statesData)).
Proof.
  intros (res & E & J).
  assert (S : state_after (getStatesData net) initialState
              = setData statesData (setLoading false (setLoading true initialState))).
  { unfold state_after.
    now rewrite (getStatesData_resolved net _ res statesData E J). }
  rewrite S. do 5 (split; [reflexivity|]).
  rewrite headers_table by reflexivity.
  rewrite columns_no_pin by reflexivity.
  apply initialColumns_uniq.
Qed.

Lemma reads_own_plain (col : string) (rows : list Row) :
  plain_name col = true -> reads_own col rows = true.
Proof.
  intros P. unfold reads_own. apply forallb_forall. intros row _.
  rewrite P. apply orb_true_r.
Qed.

(** After a load that succeeds with rows whose values of "state" are
    comparable, the first click on "state" gives the rows in descending
    order of "state": the sort state reads ascending from the start, so the
    click is taken as the second one.  ("state" is a plain name: lodash
    reads it as the key of a row, whatever the rows are.) *)
Theorem first_click_on_state (net : Network) (statesData : list Row) :
  resolves net statesData ->
  comparable "state" statesData = true ->
  reads_own "state" statesData = true
  /\ sortedOn (Sort "state" (state_after (getStatesData net) initialState))
  = {| direction := DEC; column := "state" |}
  /\ data (Sort "state" (state_after (getStatesData net) initialState))
     = rev (sortBy statesData "state")
  /\ descending_by "state"
       (data (Sort "state" (state_after (getStatesData net) initialState))).
Proof.
  intros (res & E & J) C.
  assert (S : state_after (getStatesData net) initialState
              = setData statesData (setLoading false (setLoading true initialState))).
  { unfold state_after.
    now rewrite (getStatesData_resolved net _ res statesData E J). }
  rewrite S.
  set (st := setData statesData (setLoading false (setLoading true initialState))).
  assert (Q : sortedOn st = {| direction := ASC; column := "state" |})
    by reflexivity.
  rewrite (Sort_ascending_column "state" st Q). simpl.
  split; [now apply reads_own_plain|].
  split; [reflexivity|]. split; [reflexivity|].
  unfold reverse, descending_by.
  apply (StronglySorted_rev
           (fun r1 r2 => value_le (prop r1 "state") (prop r2 "state"))).
  now apply sortBy_ascending.
Qed.

(** ** The table *)

Lemma DataGrid_Table_inv (st : State) (thead : list Th)
      (tbody : list (list Td)) :
  DataGrid st = Table thead tbody ->
  thead = map (fun col => HeaderCell col (includes col (pinnedColumns st)))
              (columns st)
  /\ tbody = map (fun row =>
                    map (fun col =>
                           Cell (prop row col)
                                (includes col (pinnedColumns st)))
                        (columns st))
                 (data st).
Proof.
  unfold DataGrid. destruct (loading st); [discriminate|].
  destruct (truthy (error st)); [discriminate|].
  intros E. injection E as <- <-. split; reflexivity.
Qed.

Lemma map_constant {A B : Type} (f : A -> B) (c : B) (l : list A) :
  (forall x, In x l -> f x = c) -> map f l = repeat c (List.length l).
Proof.
  induction l as [|x l IH]; intros E; simpl; [reflexivity|].
  rewrite (E x) by now left. f_equal. apply IH. intros; apply E; now right.
Qed.

(** In a table the headers of the pinned columns, and no others, are
    marked as pinned; they come first in the row of headers; and the cells
    of every row are marked as the headers above them are. *)
Theorem pinned_marks (st : State) (thead : list Th) (tbody : list (list Td)) :
  DataGrid st = Table thead tbody ->
  (forall th, In th thead ->
      (th_className th = "pinned" <-> In (th_onClick th) (pinnedColumns st)))
  /\ map th_className thead
     = repeat "pinned" (List.length (uniq (pinnedColumns st)))
       ++ repeat "" (List.length thead
                     - List.length (uniq (pinnedColumns st)))
  /\ (forall cells, In cells tbody ->
        map td_className cells = map th_className thead).
Proof.
  intros E. apply DataGrid_Table_inv in E. destruct E as [-> ->].
  split; [|split].
  - intros th I. apply in_map_iff in I. destruct I as (col & <- & _). simpl.
    rewrite <- includes_In. destruct (includes col (pinnedColumns st));
      split; congruence.
  - rewrite map_map. simpl. rewrite length_map.
    unfold columns. rewrite newColumns_split, map_app, length_app.
    f_equal.
    + apply map_constant. intros col I.
      apply (proj1 (uniq_In _ _)) in I.
      apply (proj2 (includes_In _ _)) in I. now rewrite I.
    + replace (List.length (uniq (pinnedColumns st))
               + List.length
                   (filter (fun k => negb (includes k (pinnedColumns st)))
                           (uniq (initialColumns (data st))))
               - List.length (uniq (pinnedColumns st)))%nat
        with (List.length
                (filter (fun k => negb (includes k (pinnedColumns st)))
                        (uniq (initialColumns (data st))))) by lia.
      apply map_constant. intros col I. apply filter_In in I.
      destruct I as [_ I]. apply negb_true_iff in I. now rewrite I.
  - intros cells I. apply in_map_iff in I. destruct I as (row & <- & _).
    rewrite !map_map. reflexivity.
Qed.

(** ** What holds in every state the grid goes through *)

Lemma TogglePin_fields (col : string) (st : State) :
  loading (TogglePin col st) = loading st
  /\ error (TogglePin col st) = error st.
Proof.
  unfold TogglePin, handlePinning.
  now destruct (includes col (pinnedColumns st)).
Qed.

Lemma reachable_pinned_rows (net : Network) (st : State) :
  reachable net st ->
  NoDup (pinnedColumns st)
  /\ (forall p, In p (pinnedColumns st) -> In p (initialColumns (data st))).
Proof.
  induction 1 as [|st I| |st col metaKey R [N S] C].
  - split; [constructor|contradiction].
  - apply (proj2 (getStatesData_run net initialState)) in I. subst st.
    split; [constructor|contradiction].
  - rewrite (proj1 (getStatesData_run net initialState)).
    split; [constructor|contradiction].
  - apply headers_DataGrid in C.
    assert (Ic : In col (initialColumns (data st))).
    { unfold columns in C. apply newColumns_In in C. destruct C; auto. }
    destruct metaKey; simpl.
    + change (handlePinning st col st) with (TogglePin col st).
      split; [now apply TogglePin_NoDup|].
      intros p Ip. rewrite TogglePin_data.
      destruct (string_dec p col) as [->|Np]; [assumption|].
      apply S. now apply (proj2 (TogglePin_In col st) p Np).
    + change (handleSort st col st) with (Sort col st).
      unfold Sort at 1 2. rewrite handleSort_pinnedColumns.
      split; [assumption|]. intros p Ip.
      apply (initialColumns_perm p _ _ (Sort_data_perm col st)). auto.
Qed.

(** In every state the grid goes through no column is pinned twice and
    every pinned column is a column of the rows; so the list of columns is
    the pinned columns, as they are, followed by the other columns of the
    rows, and pinning never makes the list longer or shorter. *)
Theorem reachable_pinned (net : Network) (st : State) :
  reachable net st ->
  NoDup (pinnedColumns st)
  /\ (forall p, In p (pinnedColumns st) -> In p (initialColumns (data st)))
  /\ columns st
     = pinnedColumns st
       ++ filter (fun k => negb (includes k (pinnedColumns st)))
                 (initialColumns (data st))
  /\ List.length (columns st) = List.length (initialColumns (data st)).
Proof.
  intros R. destruct (reachable_pinned_rows net st R) as [N S].
  split; [exact N|]. split; [exact S|]. split.
  - unfold columns. rewrite newColumns_split.
    rewrite (uniq_of_NoDup _ N).
    now rewrite (uniq_of_NoDup (initialColumns (data st)) (uniq_NoDup _)).
  - apply same_elements_length;
      [apply newColumns_NoDup|apply uniq_NoDup|].
    intros k. unfold columns. rewrite newColumns_In. split; [|tauto].
    intros [I|I]; auto.
Qed.

(** The states the grid goes through are the first one, the one shown while
    the request is pending, and the states after the load. *)
Lemma reachable_cases (net : Network) (st : State) :
  reachable net st ->
  st = initialState \/ st = setLoading true initialState \/ after_load net st.
Proof.
  induction 1 as [|st I| |st col metaKey R IH C].
  - now left.
  - right. left. now apply (proj2 (getStatesData_run net initialState)).
  - right. right. constructor.
  - destruct IH as [-> | [-> | A]]; [contradiction C..|].
    right. right. now constructor.
Qed.

(** Once the load has succeeded the grid stays a table: in the state the
    load ends in and in every state that clicks lead to from there, the
    loading flag is down, there is no error, the rows are the rows received,
    in some order, the columns are the columns of the rows received, and a
    table is shown with a header for each column. *)
Theorem after_load_success (net : Network) (statesData : list Row)
        (st : State) :
  resolves net statesData ->
  after_load net st ->
  loading st = false
  /\ error st = None
  /\ Permutation (data st) statesData
  /\ (forall k, In k (columns st) <-> In k (initialColumns statesData))
  /\ (exists thead tbody,
        DataGrid st = Table thead tbody /\ map th_onClick thead = columns st).
Proof.
  intros (res & E & J) A.
  assert (T : forall s, loading s = false -> error s = None ->
                        exists thead tbody,
                          DataGrid s = Table thead tbody
                          /\ map th_onClick thead = columns s).
  { intros s L Er. eexists. eexists. split.
    - apply DataGrid_table; [exact L|now rewrite Er].
    - rewrite map_map. apply map_id. }
  induction A as [|st col metaKey A IH C].
  - assert (S : state_after (getStatesData net) initialState
                = setData statesData
                    (setLoading false (setLoading true initialState))).
    { unfold state_after.
      now rewrite (getStatesData_resolved net _ res statesData E J). }
    rewrite S.
    split; [reflexivity|]. split; [reflexivity|]. split; [reflexivity|].
    split; [|now apply T].
    intros k. now rewrite columns_no_pin.
  - destruct IH as (L & Er & P & K & _).
    apply headers_DataGrid in C.
    assert (Ic : In col (initialColumns (data st))).
    { apply (initialColumns_perm col _ _ P). now apply K. }
    destruct metaKey; simpl.
    + change (handlePinning st col st) with (TogglePin col st).
      destruct (TogglePin_fields col st) as [L' Er'].
      rewrite L, Er in *.
      split; [exact L'|]. split; [exact Er'|].
      split; [now rewrite TogglePin_data|].
      split; [|now apply T].
      intros k. rewrite (TogglePin_columns_In col st k Ic). apply K.
    + change (handleSort st col st) with (Sort col st).
      destruct (Sort_fields col st) as [L' Er'].
      rewrite L, Er in *.
      split; [exact L'|]. split; [exact Er'|].
      split; [now rewrite (Sort_data_perm col st)|].
      split; [|now apply T].
      intros k. rewrite (Sort_columns_In col st k). apply K.
Qed.

End GridMore.

(** ** The grid at work, again *)

Lemma Sort_descending_witness :
  data (Sort "pop" Texas_Ohio_by_pop) = [Texas; Ohio]
  /\ descending_by "pop" (data (Sort "pop" Texas_Ohio_by_pop)).
Proof.
  assert (E : sortedOn Texas_Ohio_by_pop
              = {| direction := ASC; column := "pop" |}) by reflexivity.
  assert (C : comparable "pop" (data Texas_Ohio_by_pop) = true)
    by reflexivity.
  assert (O : reads_own "pop" (data Texas_Ohio_by_pop) = true)
    by reflexivity.
  destruct (Sort_descending "pop" Texas_Ohio_by_pop E C O) as (_ & D & S).
  split; [exact D|exact S].
Defined.

Lemma Sort_agreeing_column_witness :
  ~ In "capital" (all_keys (data loaded_Texas_Ohio))
  /\ data (Sort "capital" loaded_Texas_Ohio) = [Texas; Ohio].
Proof.
  assert (N : column (sortedOn loaded_Texas_Ohio) <> "capital")
    by discriminate.
  assert (M : ~ In "capital" (all_keys (data loaded_Texas_Ohio))).
  { simpl. intros F. repeat (destruct F as [F|F]; [discriminate F|]). exact F. }
  assert (O : reads_own "capital" (data loaded_Texas_Ohio) = true)
    by reflexivity.
  split; [exact M|].
  exact (proj2 (Sort_agreeing_column "capital" loaded_Texas_Ohio N O) M).
Defined.

Lemma Sort_cycle_witness :
  sortedOn (Nat.iter 5 (Sort "pop") loaded_Texas_Ohio)
  = {| direction := DEC; column := "pop" |}
  /\ sortedOn (Nat.iter 6 (Sort "pop") loaded_Texas_Ohio)
     = {| direction := ASC; column := "state" |}
  /\ sortedOn (Nat.iter 3 (Sort "state") loaded_Texas_Ohio)
     = {| direction := DEC; column := "state" |}.
Proof.
  assert (Ns : "pop" <> "state") by discriminate.
  assert (N : column (sortedOn loaded_Texas_Ohio) <> "pop") by discriminate.
  destruct (proj1 (Sort_cycle "pop" loaded_Texas_Ohio 1) Ns N) as (_ & D & R).
  destruct (proj2 (Sort_cycle "state" loaded_Texas_Ohio 1) eq_refl eq_refl)
    as (O & _).
  split; [exact D|]. split; [exact R|exact O].
Defined.

Lemma getStatesData_always_witness :
  error (state_after (getStatesData bad_json_network) loaded_Texas_Ohio)
  = Some "Error fetching states"
  /\ data (state_after (getStatesData bad_json_network) loaded_Texas_Ohio)
     = [Texas; Ohio]
  /\ data (state_after (getStatesData two_states_network) loaded_Texas_Ohio)
     = two_states.
Proof.
  assert (F : load_fails bad_json_network).
  { right. exists {| json := Rejected {| message := "Unexpected token" |} |}.
    exists {| message := "Unexpected token" |}. split; reflexivity. }
  assert (R : resolves two_states_network two_states).
  { exists {| json := Resolved two_states |}. split; reflexivity. }
  destruct (getStatesData_always bad_json_network loaded_Texas_Ohio)
    as (_ & _ & _ & _ & _ & A & _).
  destruct (getStatesData_always two_states_network loaded_Texas_Ohio)
    as (_ & _ & _ & _ & _ & _ & B).
  destruct (A F) as [D Er]. destruct (B two_states R) as [D' _].
  split; [exact Er|]. split; [exact D|exact D'].
Defined.

Lemma pending_shows_loading_witness :
  DataGrid (setLoading true initialState) = Div "Loading...".
Proof.
  apply (proj2 (pending_shows_loading two_states_network)).
  simpl. tauto.
Defined.

Lemma load_success_witness :
  data two_states_loaded = two_states
  /\ headers (DataGrid two_states_loaded) = ["state"; "pop"; "capital"].
Proof.
  assert (R : resolves two_states_network two_states).
  { exists {| json := Resolved two_states |}. split; reflexivity. }
  destruct (load_success two_states_network two_states R)
    as (D & _ & _ & _ & _ & Hd).
  split; [exact D|exact Hd].
Defined.

Lemma first_click_on_state_witness :
  data (Sort "state" (state_after (getStatesData Texas_Ohio_network)
                                  initialState))
  = [Texas; Ohio]
  /\ direction
       (sortedOn (Sort "state" (state_after (getStatesData Texas_Ohio_network)
                                            initialState)))
     = DEC.
Proof.
  assert (R : resolves Texas_Ohio_network [Texas; Ohio]).
  { exists {| json := Resolved [Texas; Ohio] |}. split; reflexivity. }
  assert (C : comparable "state" [Texas; Ohio] = true) by reflexivity.
  destruct (first_click_on_state Texas_Ohio_network [Texas; Ohio] R C)
    as (_ & S & D & _).
  split; [exact D|]. now rewrite S.
Defined.

Lemma pinned_marks_witness :
  map th_className pop_pinned_thead = ["pinned"; ""; ""]
  /\ (forall cells, In cells pop_pinned_tbody ->
        map td_className cells = map th_className pop_pinned_thead).
Proof.
  assert (E : DataGrid two_states_pop_pinned
              = Table pop_pinned_thead pop_pinned_tbody) by reflexivity.
  destruct (pinned_marks two_states_pop_pinned _ _ E) as (_ & M & C).
  split; [exact M|exact C].
Defined.

Lemma reachable_pinned_witness :
  columns two_states_pop_pinned
  = ["pop"] ++ ["state"; "capital"]
  /\ List.length (columns two_states_pop_pinned) = 3%nat.
Proof.
  assert (R : reachable two_states_network two_states_pop_pinned).
  { apply reach_click; [apply reach_loaded|]. simpl. tauto. }
  destruct (reachable_pinned two_states_network two_states_pop_pinned R)
    as (_ & _ & C & L).
  split; [exact C|exact L].
Defined.

Lemma after_load_success_witness :
  loading two_states_pop_pinned = false
  /\ error two_states_pop_pinned = None
  /\ Permutation (data two_states_pop_pinned) two_states
  /\ headers (DataGrid two_states_pop_pinned) = ["pop"; "state"; "capital"].
Proof.
  assert (S : resolves two_states_network two_states).
  { exists {| json := Resolved two_states |}. split; reflexivity. }
  assert (A : after_load two_states_network two_states_pop_pinned).
  { apply loaded_click; [apply loaded_now|]. simpl. tauto. }
  destruct (after_load_success two_states_network two_states
              two_states_pop_pinned S A) as (L & Er & P & _).
  split; [exact L|]. split; [exact Er|]. split; [exact P|reflexivity].
Defined.
